(** * Vehicle detection and counting: the line-crossing counter

    A shallow embedding of [car_detection.py] (and of the notebook variant of
    [process_video] that [create_notebook.py] emits), with the properties of
    the crossing counter, of the detection filter and of the resource
    handling of a run.

    The detector, the tracker and OpenCV are external: what they answer is
    given by an oracle ([world]), what the program asks of them is recorded
    in a trace of [event]s.  Console output and drawing on the frame buffer
    are left out. *)

From Stdlib Require Import ZArith Lia List Ascii String PrimFloat FloatOps SpecFloat.
From stdpp Require Import gmap strings list.

Local Open Scope Z_scope.
Set Warnings "-clear-no-such-hyp".

(** ** Exceptions and Python's numeric conversions

    Every failure of the model is an instance of Python's [Exception]: the
    two the conversions raise, and whatever an external call raises.
    Interrupts, which are no [Exception] and which [except Exception] lets
    through, are not modelled. *)

Inductive exn :=
| ValueError (msg : string)
| OverflowError (msg : string)
| ExternalError (msg : string).

#[export] Instance exn_ret : MRet (sum exn) := λ _ a, inr a.

#[export] Instance exn_bind : MBind (sum exn) := λ _ _ k m,
  match m with
  | inl x => inl x
  | inr a => k a
  end.

(** Truncation toward zero of a binary64 value, as [int(x)] does it; NaN and
    the infinities have no integer. *)
Definition trunc (x : spec_float) : exn + Z :=
  match x with
  | S754_zero _ => inr 0
  | S754_finite s m e =>
      let a := Z.shiftl (Z.pos m) e in
      inr (if s then - a else a)
  | S754_infinity _ =>
      inl (OverflowError "cannot convert float infinity to integer")
  | S754_nan => inl (ValueError "cannot convert float NaN to integer")
  end.

(** [int(x)] for a float [x]. *)
Definition py_int (x : float) : exn + Z := trunc (Prim2SF x).

(** [n / 2] for an integer [n]: the quotient rounded to the nearest binary64
    value, an [OverflowError] when that is out of range. *)
Definition half (n : Z) : exn + spec_float :=
  match binary_normalize prec emax n (-1) false with
  | S754_infinity _ =>
      inl (OverflowError "integer division result too large for a float")
  | q => inr q
  end.

(** [cy = int((y1 + y2) / 2)]. *)
Definition centroid_y (y1 y2 : Z) : exn + Z :=
  q ← half (y1 + y2); trunc q.

(** ** The counting line

    [line_position] and [offset] are locals of [process_video], fixed before
    the frame loop starts.  The script takes the middle row of the frame, the
    notebook the literal row 300; both use [offset = 10]. *)

Record CountingLine := { line_position : Z; offset : Z }.

Definition script_line (frame_height : Z) : CountingLine :=
  {| line_position := frame_height / 2; offset := 10 |}.

Definition notebook_line : CountingLine :=
  {| line_position := 300; offset := 10 |}.

(** [(line_position - offset) < cy < (line_position + offset)]: a chained
    comparison, the conjunction of the two strict tests. *)
Definition in_band (L : CountingLine) (cy : Z) : bool :=
  (line_position L - offset L <? cy) && (cy <? line_position L + offset L).

(** The band as the spec words it: the open interval around the line. *)
Definition inside_band (L : CountingLine) (cy : Z) : Prop :=
  line_position L - offset L < cy ∧ cy < line_position L + offset L.

(** The band of the spec's scenario A, (190, 210). *)
Definition line_200 : CountingLine := {| line_position := 200; offset := 10 |}.

(** ** The counter state and one observation *)

Section Counter.
(** Track identities are whatever the tracker hands out; the code only
    hashes them and compares them for equality ([set] membership). *)
Context {K : Type} {K_eq : EqDecision K} {K_countable : Countable K}.

Record counter := { counted_ids : gset K; total_count : Z }.

(** [counted_ids = set()], [total_count = 0]. *)
Definition new_counter : counter := {| counted_ids := ∅; total_count := 0 |}.

(** The counting step of the track loop:
<<
    if (line_position - offset) < cy < (line_position + offset):
        if track_id not in counted_ids:
            counted_ids.add(track_id)
            total_count += 1
>>
    The boolean tells whether the inner branch ran. *)
Definition observe (L : CountingLine) (s : counter) (track_id : K) (cy : Z)
  : bool * counter :=
  if in_band L cy then
    if decide (track_id ∈ counted_ids s) then (false, s)
    else (true, {| counted_ids := {[ track_id ]} ∪ counted_ids s;
                   total_count := total_count s + 1 |})
  else (false, s).

(** A sequence of observations, left to right, with the result of each. *)
Fixpoint observe_seq (L : CountingLine) (s : counter) (calls : list (K * Z))
  : list bool * counter :=
  match calls with
  | [] => ([], s)
  | (track_id, cy) :: rest =>
      let '(r, s1) := observe L s track_id cy in
      let '(rs, s2) := observe_seq L s1 rest in
      (r :: rs, s2)
  end.

(** The identities whose centroid was inside the band on some call. *)
Definition banded (L : CountingLine) (calls : list (K * Z)) : gset K :=
  list_to_set (filter (λ c, in_band L c.2 = true) calls).*1.

(** How often the calls of one identity returned [true]. *)
Fixpoint increments_of (track_id : K) (calls : list (K * Z)) (rs : list bool)
  : nat :=
  match calls, rs with
  | (i, _) :: calls', r :: rs' =>
      (if bool_decide (i = track_id) && r then 1 else 0)%nat
      + increments_of track_id calls' rs'
  | _, _ => 0%nat
  end.

(** The total and the set move together. *)
Definition in_sync (s : counter) : Prop :=
  total_count s = Z.of_nat (size (counted_ids s)).

End Counter.

Arguments counter K {_ _}.

(** Scenario A after its second call: identity 1 is counted. *)
Definition counted_1 : counter string :=
  {| counted_ids := {[ "1"%string ]}; total_count := 1 |}.

(** ** The detection filter *)

(** One row of [results.boxes.data.tolist()]. *)
Record result := {
  x1 : float; y1 : float; x2 : float; y2 : float;
  score : float; class_id : float }.

(** What is appended for the tracker:
    [([x1, y1, x2 - x1, y2 - y1], score, int(class_id))]. *)
Definition detection : Type := list float * float * Z.

Definition vehicle_classes : list Z := [2; 3; 5; 7].

(** The literal [0.4], that is the binary64 value nearest to it. *)
Definition confidence_threshold : float := 0x1.999999999999ap-2%float.

(** [int(class_id) in [2, 3, 5, 7] and score > 0.4], on the converted
    class. *)
Definition is_vehicle (c : Z) (r : result) : bool :=
  bool_decide (c ∈ vehicle_classes) && (confidence_threshold <? score r)%float.

Definition to_detection (c : Z) (r : result) : detection :=
  ([x1 r; y1 r; (x2 r - x1 r)%float; (y2 r - y1 r)%float], score r, c).

(** The filter loop over the rows of one frame. *)
Fixpoint filter_detections (results : list result) : exn + list detection :=
  match results with
  | [] => inr []
  | r :: rest =>
      c ← py_int (class_id r);
      detections ← filter_detections rest;
      mret (if is_vehicle c r then to_detection c r :: detections
            else detections)
  end.

(** The spec's words for the confidence test: the score meets the minimum
    confidence 0.4. *)
Definition meets_minimum_confidence (r : result) : bool :=
  (confidence_threshold <=? score r)%float.

(** The spec's words for the class test: the class id of the row is one of
    2, 3, 5, 7. *)
Definition class_listed (r : result) : bool :=
  existsb (λ k, (class_id r =? k)%float) [2; 3; 5; 7]%float.

(** The score is strictly above the threshold: [score > 0.4]. *)
Definition above_threshold (r : result) : bool :=
  (confidence_threshold <? score r)%float.

(** A float that [int()] accepts: neither NaN nor an infinity. *)
Definition finite (x : float) : bool :=
  negb (is_nan x) && negb (is_infinity x).

(** The detection of a row is forwarded to the tracker: the filter of the
    frame ends without exception and the detection built from the row is in
    the list handed to [tracker.update_tracks]. *)
Definition forwarded (results : list result) (r : result) : Prop :=
  ∃ detections c,
    filter_detections results = inr detections ∧
    py_int (class_id r) = inr c ∧
    to_detection c r ∈ detections.

(** A car whose score is the literal [0.4] itself, and one above it. *)
Definition row_at_threshold : result :=
  {| x1 := 1; y1 := 2; x2 := 11; y2 := 22;
     score := confidence_threshold; class_id := 2 |}.

Definition row_above_threshold : result :=
  {| x1 := 1; y1 := 2; x2 := 11; y2 := 22; score := 0.5; class_id := 7 |}.

(** A row whose class id is NaN, and one whose class id lies between two
    integers. *)
Definition row_nan_class : result :=
  {| x1 := 1; y1 := 2; x2 := 11; y2 := 22; score := 0.125; class_id := nan |}.

Definition row_fractional_class : result :=
  {| x1 := 1; y1 := 2; x2 := 11; y2 := 22; score := 0.5; class_id := 2.5 |}.

(** ** Effects of a run *)

(** What the program asks of the outside, in order.  An external call that
    raises leaves no event: only calls that returned are recorded. *)
Inductive event :=
| AskOpenFilename
| LoadModel
| InitTracker
| OpenCapture (video_path : string) (opened : bool)
| OpenWriter (output_path : string)
| ReadFrame (ret : bool)
| Detect
| UpdateTracks (detections : list detection)
| ImShow
| WriteFrame
| WaitKey (key : Z)
| ReleaseCapture
| ReleaseWriter
| DestroyAllWindows.

(** The trace so far, and which of [cap] and [out] are bound in the frame of
    [process_video] (what ['cap' in locals()] asks). *)
Record env := { trace : list event; cap_bound : bool; out_bound : bool }.

Definition start : env :=
  {| trace := []; cap_bound := false; out_bound := false |}.

Definition M (A : Type) : Type := env → env * (exn + A).

#[export] Instance M_ret : MRet M := λ _ a e, (e, inr a).

#[export] Instance M_bind : MBind M := λ _ _ k m e,
  match m e with
  | (e1, inl x) => (e1, inl x)
  | (e1, inr a) => k a e1
  end.

Definition lift {A} (r : exn + A) : M A := λ e, (e, r).

Definition raise {A} (x : exn) : M A := lift (inl x).

Definition log (ev : event) (e : env) : env :=
  {| trace := trace e ++ [ev];
     cap_bound := cap_bound e; out_bound := out_bound e |}.

(** An external call with its answer from the oracle. *)
Definition call {A} (ev : event) (answer : exn + A) : M A := λ e,
  match answer with
  | inl x => (e, inl x)
  | inr a => (log ev e, inr a)
  end.

Definition emit (ev : event) : M unit := call ev (inr ()).

Definition assign_cap : M unit := λ e,
  ({| trace := trace e; cap_bound := true; out_bound := out_bound e |},
   inr ()).

Definition assign_out : M unit := λ e,
  ({| trace := trace e; cap_bound := cap_bound e; out_bound := true |},
   inr ()).

(** [try: body  except Exception as e: handler]. *)
Definition try_except {A} (body : M A) (handler : exn → M A) : M A := λ e,
  match body e with
  | (e1, inl x) => handler x e1
  | (e1, inr a) => (e1, inr a)
  end.

Definition when (b : bool) (m : M unit) : M unit :=
  if b then m else mret ().

(** A computation that leaves the bindings of [cap] and [out] alone. *)
Definition keeps_locals {A} (m : M A) : Prop :=
  ∀ e, cap_bound (m e).1 = cap_bound e ∧ out_bound (m e).1 = out_bound e.

(** What a trace leaves open: the capture and the writer from their
    construction to their [release()], the display from the first
    [imshow] to [destroyAllWindows()].  The hidden Tk root of the file
    dialog belongs to [select_video] and is not followed here. *)
Record resources := { cap_open : bool; out_open : bool; window_open : bool }.

Definition step (r : resources) (ev : event) : resources :=
  match ev with
  | OpenCapture _ _ =>
      {| cap_open := true; out_open := out_open r;
         window_open := window_open r |}
  | OpenWriter _ =>
      {| cap_open := cap_open r; out_open := true;
         window_open := window_open r |}
  | ImShow =>
      {| cap_open := cap_open r; out_open := out_open r;
         window_open := true |}
  | ReleaseCapture =>
      {| cap_open := false; out_open := out_open r;
         window_open := window_open r |}
  | ReleaseWriter =>
      {| cap_open := cap_open r; out_open := false;
         window_open := window_open r |}
  | DestroyAllWindows =>
      {| cap_open := cap_open r; out_open := out_open r;
         window_open := false |}
  | _ => r
  end.

Definition nothing_open : resources :=
  {| cap_open := false; out_open := false; window_open := false |}.

Definition left_open (tr : list event) : resources :=
  fold_left step tr nothing_open.

(** The events of frame processing. *)
Definition processing (ev : event) : bool :=
  match ev with
  | ReadFrame _ | Detect | UpdateTracks _ | ImShow | WriteFrame | WaitKey _ =>
      true
  | _ => false
  end.


(** [s.rsplit('.', 1)[0]]: [s] up to its last dot, all of [s] without one. *)
Fixpoint before_last_dot (s : string) : option string :=
  match s with
  | EmptyString => None
  | String c rest =>
      match before_last_dot rest with
      | Some p => Some (String c p)
      | None => if Ascii.eqb c "."%char then Some EmptyString else None
      end
  end.

Definition rsplit_dot (s : string) : string :=
  default s (before_last_dot s).

(** The events that give a resource back. *)
Definition releases (ev : event) : bool :=
  match ev with
  | ReleaseCapture | ReleaseWriter | DestroyAllWindows => true
  | _ => false
  end.

(** A computation that adds only events satisfying [P] to the trace and
    leaves the bindings of [cap] and [out] alone. *)
Definition emits_only (P : event → bool) {A} (m : M A) : Prop :=
  ∀ e, ∃ evs,
    (m e).1 = {| trace := trace e ++ evs;
                 cap_bound := cap_bound e; out_bound := out_bound e |} ∧
    forallb P evs = true.

(** A string without a dot. *)
Fixpoint dotless (s : string) : bool :=
  match s with
  | EmptyString => true
  | String c rest => negb (Ascii.eqb c "."%char) && dotless rest
  end.

(** ** The run *)

Section Run.
Context {K : Type} {K_eq : EqDecision K} {K_countable : Countable K}.

(** A track as the tracker reports it. *)
Record track := {
  is_confirmed : bool;
  track_id : K;
  to_ltrb : float * float * float * float }.

(** The answers of the outside during one frame. *)
Record frame_io := {
  model : exn + list result;      (* model(frame)[0].boxes.data.tolist() *)
  update_tracks : exn + list track;
  imshow : exn + unit;
  write : exn + unit;
  waitKey : Z }.

(** The answers of the outside during a run. *)
Record world := {
  askopenfilename : exn + string;
  YOLO : exn + unit;
  DeepSort : exn + unit;
  VideoCapture : exn + bool;      (* a capture, opened or not *)
  CAP_PROP_FRAME_WIDTH : float;
  CAP_PROP_FRAME_HEIGHT : float;
  CAP_PROP_FPS : float;
  VideoWriter : exn + unit;
  frames : list frame_io }.

Definition select_video (w : world) : M string :=
  video_path ← call AskOpenFilename (askopenfilename w);
  if String.eqb video_path "" then raise (ValueError "No video file selected")
  else mret video_path.

Definition setup_video_writer (w : world) (video_path : string) : M string :=
  let output_path := rsplit_dot video_path +:+ "_processed.mp4" in
  frame_width ← lift (py_int (CAP_PROP_FRAME_WIDTH w));
  frame_height ← lift (py_int (CAP_PROP_FRAME_HEIGHT w));
  fps ← lift (py_int (CAP_PROP_FPS w));
  call (OpenWriter output_path) (VideoWriter w);;
  mret output_path.

(** [x1, y1, x2, y2 = map(int, track.to_ltrb())], then the drawing. *)
Definition draw_tracking_info (t : track) : M (Z * Z * Z * Z) :=
  let '(l, u, r, b) := to_ltrb t in
  x1 ← lift (py_int l);
  y1 ← lift (py_int u);
  x2 ← lift (py_int r);
  y2 ← lift (py_int b);
  mret (x1, y1, x2, y2).

(** [for track in tracks: ...] *)
Fixpoint track_loop (L : CountingLine) (c : counter K) (tracks : list track)
  : M (counter K) :=
  match tracks with
  | [] => mret c
  | t :: rest =>
      if negb (is_confirmed t) then track_loop L c rest
      else
        '(_, y1, _, y2) ← draw_tracking_info t;
        cy ← lift (centroid_y y1 y2);
        track_loop L (observe L c (track_id t) cy).2 rest
  end.

(** The body of the frame loop after a successful read; the boolean is the
    test [cv2.waitKey(1) & 0xFF == ord('q')]. *)
Definition process_frame (L : CountingLine) (c : counter K) (f : frame_io)
  : M (counter K * bool) :=
  results ← call Detect (model f);
  detections ← lift (filter_detections results);
  tracks ← call (UpdateTracks detections) (update_tracks f);
  c1 ← track_loop L c tracks;
  call ImShow (imshow f);;
  call WriteFrame (write f);;
  emit (WaitKey (waitKey f));;
  mret (c1, Z.land (waitKey f) 255 =? 113).

(** The frame loop, entered with the capture opened; the stream ends when
    [cap.read()] gives [ret = False]. *)
Fixpoint frame_loop (L : CountingLine) (c : counter K) (fs : list frame_io)
  : M (counter K) :=
  match fs with
  | [] => emit (ReadFrame false);; mret c
  | f :: rest =>
      emit (ReadFrame true);;
      r ← process_frame L c f;
      if (r.2 : bool) then mret r.1 else frame_loop L r.1 rest
  end.

(** [while cap.isOpened(): ...]: the loop is not entered on a capture that
    is not opened. *)
Definition while_opened (opened : bool) (c : counter K)
    (loop : M (counter K)) : M (counter K) :=
  if opened then loop else mret c.

(** [cap = cv2.VideoCapture(video_path)]. *)
Definition open_capture (w : world) (video_path : string) : M bool :=
  opened ← lift (VideoCapture w);
  emit (OpenCapture video_path opened);;
  assign_cap;;
  mret opened.

Definition locals_has_cap : M bool := λ e, (e, inr (cap_bound e)).

Definition locals_has_out : M bool := λ e, (e, inr (out_bound e)).

(** [cap.release(); out.release(); cv2.destroyAllWindows()]. *)
Definition cleanup : M unit :=
  emit ReleaseCapture;; emit ReleaseWriter;; emit DestroyAllWindows.

(** The [try] block of [process_video] in [car_detection.py]. *)
Definition process_video_try (w : world) : M (Z * string) :=
  video_path ← select_video w;
  call LoadModel (YOLO w);;
  call InitTracker (DeepSort w);;
  opened ← open_capture w video_path;
  if negb opened
  then raise (ValueError ("Could not open video file: " +:+ video_path))
  else
    output_path ← setup_video_writer w video_path;
    assign_out;;
    frame_width ← lift (py_int (CAP_PROP_FRAME_WIDTH w));
    frame_height ← lift (py_int (CAP_PROP_FRAME_HEIGHT w));
    c ← while_opened opened new_counter
          (frame_loop (script_line frame_height) new_counter (frames w));
    cleanup;;
    mret (total_count c, output_path).

(** Its [except Exception as e] block: release what is bound, then
    [raise]. *)
Definition process_video_except (x : exn) : M (Z * string) :=
  has_cap ← locals_has_cap;
  when has_cap (emit ReleaseCapture);;
  has_out ← locals_has_out;
  when has_out (emit ReleaseWriter);;
  emit DestroyAllWindows;;
  raise x.

(** [process_video] of [car_detection.py]. *)
Definition process_video (w : world) : M (Z * string) :=
  try_except (process_video_try w) process_video_except.

(** [process_video] of the notebook: no [try], no test of
    [cap.isOpened()] before the writer is set up, the line at row 300. *)
Definition notebook_process_video (w : world) : M (Z * string) :=
  video_path ← select_video w;
  call LoadModel (YOLO w);;
  call InitTracker (DeepSort w);;
  opened ← open_capture w video_path;
  output_path ← setup_video_writer w video_path;
  assign_out;;
  c ← while_opened opened new_counter
        (frame_loop notebook_line new_counter (frames w));
  cleanup;;
  mret (total_count c, output_path).

(** The observation the track loop makes of a confirmed track: its identity
    with the centroid row of its converted box. *)
Definition observed_as (t : track) (call : K * Z) : Prop :=
  call.1 = track_id t ∧
  ∃ l u r b x1 y1 x2 y2,
    to_ltrb t = (l, u, r, b) ∧
    py_int l = inr x1 ∧ py_int u = inr y1 ∧
    py_int r = inr x2 ∧ py_int b = inr y2 ∧
    centroid_y y1 y2 = inr call.2.

(** The identity of a confirmed track that the tracker reported on some
    frame. *)
Definition reported (fs : list frame_io) (i : K) : Prop :=
  ∃ f ts t, f ∈ fs ∧ update_tracks f = inr ts ∧ t ∈ ts ∧
            is_confirmed t = true ∧ track_id t = i.

End Run.

Arguments track K : clear implicits.
Arguments frame_io K : clear implicits.
Arguments world K : clear implicits.

(** A run over two frames with two confirmed tracks near the middle row of
    a 640x480 stream; on the second frame the detector raises. *)
Definition frame_two_tracks : frame_io string :=
  {| model := inr [row_above_threshold];
     update_tracks :=
       inr [ {| is_confirmed := true; track_id := "1"%string;
                to_ltrb := (10, 230, 50, 250)%float |};
             {| is_confirmed := true; track_id := "2"%string;
                to_ltrb := (10, 235.5, 50, 250)%float |};
             {| is_confirmed := false; track_id := "3"%string;
                to_ltrb := (10, 235.5, 50, 250)%float |} ];
     imshow := inr (); write := inr (); waitKey := -1 |}.

Definition frame_detector_raises : frame_io string :=
  {| model := inl (ExternalError "inference failed");
     update_tracks := inr [];
     imshow := inr (); write := inr (); waitKey := -1 |}.

Definition world_of (selected : string) (opened : bool)
    (fs : list (frame_io string)) : world string :=
  {| askopenfilename := inr selected;
     YOLO := inr (); DeepSort := inr ();
     VideoCapture := inr opened;
     CAP_PROP_FRAME_WIDTH := 640; CAP_PROP_FRAME_HEIGHT := 480;
     CAP_PROP_FPS := 30;
     VideoWriter := inr ();
     frames := fs |}.

Definition failing_world : world string :=
  world_of "traffic.mp4" true [frame_two_tracks; frame_detector_raises].

(** The tracks of [frame_two_tracks], and a frame on which q is pressed. *)
Definition sample_tracks : list (track string) :=
  [ {| is_confirmed := true; track_id := "1"%string;
       to_ltrb := (10, 230, 50, 250)%float |};
    {| is_confirmed := true; track_id := "2"%string;
       to_ltrb := (10, 235.5, 50, 250)%float |};
    {| is_confirmed := false; track_id := "3"%string;
       to_ltrb := (10, 235.5, 50, 250)%float |} ].

Definition frame_quit : frame_io string :=
  {| model := inr [row_above_threshold];
     update_tracks := inr sample_tracks;
     imshow := inr (); write := inr (); waitKey := 113 |}.

(** ** The run in full detail

    The same program once more, with what the model above leaves out: the
    drawing calls ([cv2.rectangle], [cv2.putText], [cv2.line]) are external
    calls that are recorded and can fail, [cv2.waitKey] and the three release
    calls can fail, and an external call can be left by an interrupt
    ([KeyboardInterrupt], [SystemExit]), which is no instance of
    [Exception] and which [except Exception] does not catch. *)

Module Full.

Inductive failure :=
| Exception (x : exn)
| Interrupt (name : string).

Inductive event :=
| AskOpenFilename
| LoadModel
| InitTracker
| OpenCapture (video_path : string) (opened : bool)
| OpenWriter (output_path : string)
| ReadFrame (ret : bool)
| Detect
| UpdateTracks (detections : list detection)
| Rectangle (pt1 pt2 : Z * Z)
| PutText (org : Z * Z)
| Line (row : Z)
| ImShow
| WriteFrame
| WaitKey (key : Z)
| ReleaseCapture
| ReleaseWriter
| DestroyAllWindows.

Record env := { trace : list event; cap_bound : bool; out_bound : bool }.

Definition start : env :=
  {| trace := []; cap_bound := false; out_bound := false |}.

Definition N (A : Type) : Type := env → env * (failure + A).

#[export] Instance N_ret : MRet N := λ _ a e, (e, inr a).

#[export] Instance N_bind : MBind N := λ _ _ k m e,
  match m e with
  | (e1, inl x) => (e1, inl x)
  | (e1, inr a) => k a e1
  end.

(** The answer of an external call, without an event. *)
Definition ask {A} (answer : failure + A) : N A := λ e, (e, answer).

(** A conversion of the program itself: what it raises is an
    [Exception]. *)
Definition lift {A} (r : exn + A) : N A :=
  ask (match r with
       | inl x => inl (Exception x)
       | inr a => inr a
       end).

Definition raise {A} (x : exn) : N A := ask (inl (Exception x)).

Definition extend (e : env) (evs : list event) : env :=
  {| trace := trace e ++ evs;
     cap_bound := cap_bound e; out_bound := out_bound e |}.

(** An external call that is recorded when it returns. *)
Definition call {A} (ev : event) (answer : failure + A) : N A := λ e,
  match answer with
  | inl x => (e, inl x)
  | inr a => (extend e [ev], inr a)
  end.

Definition emit (ev : event) : N unit := call ev (inr ()).

Definition assign_cap : N unit := λ e,
  ({| trace := trace e; cap_bound := true; out_bound := out_bound e |},
   inr ()).

Definition assign_out : N unit := λ e,
  ({| trace := trace e; cap_bound := cap_bound e; out_bound := true |},
   inr ()).

Definition locals_has_cap : N bool := λ e, (e, inr (cap_bound e)).

Definition locals_has_out : N bool := λ e, (e, inr (out_bound e)).

(** [try: body  except Exception as e: handler]: an interrupt passes. *)
Definition try_except {A} (body : N A) (handler : exn → N A) : N A := λ e,
  match body e with
  | (e1, inl (Exception x)) => handler x e1
  | (e1, inl (Interrupt n)) => (e1, inl (Interrupt n))
  | (e1, inr a) => (e1, inr a)
  end.

Definition when (b : bool) (m : N unit) : N unit :=
  if b then m else mret ().

Definition step (r : resources) (ev : event) : resources :=
  match ev with
  | OpenCapture _ _ =>
      {| cap_open := true; out_open := out_open r;
         window_open := window_open r |}
  | OpenWriter _ =>
      {| cap_open := cap_open r; out_open := true;
         window_open := window_open r |}
  | ImShow =>
      {| cap_open := cap_open r; out_open := out_open r;
         window_open := true |}
  | ReleaseCapture =>
      {| cap_open := false; out_open := out_open r;
         window_open := window_open r |}
  | ReleaseWriter =>
      {| cap_open := cap_open r; out_open := false;
         window_open := window_open r |}
  | DestroyAllWindows =>
      {| cap_open := cap_open r; out_open := out_open r;
         window_open := false |}
  | _ => r
  end.

Definition left_open (tr : list event) : resources :=
  fold_left step tr nothing_open.

(** The calls made while a frame is processed. *)
Definition in_frame (ev : event) : bool :=
  match ev with
  | ReadFrame _ | Detect | UpdateTracks _ | Rectangle _ _ | PutText _
  | Line _ | ImShow | WriteFrame | WaitKey _ => true
  | _ => false
  end.

(** The two drawing calls of [draw_tracking_info]. *)
Definition draws_track (ev : event) : bool :=
  match ev with
  | Rectangle _ _ | PutText _ => true
  | _ => false
  end.

Definition releases (ev : event) : bool :=
  match ev with
  | ReleaseCapture | ReleaseWriter | DestroyAllWindows => true
  | _ => false
  end.

(** What is open in the trace is bound in the frame of
    [process_video]. *)
Definition open_is_bound (e : env) : Prop :=
  (cap_open (left_open (trace e)) = true → cap_bound e = true) ∧
  (out_open (left_open (trace e)) = true → out_bound e = true).

Definition emits_only (P : event → bool) {A} (m : N A) : Prop :=
  ∀ e, ∃ evs, (m e).1 = extend e evs ∧ forallb P evs = true.

Section Run.
Context {K : Type} {K_eq : EqDecision K} {K_countable : Countable K}.

(** A track as the tracker reports it, with what OpenCV answers when its
    box and its label are drawn. *)
Record track := {
  is_confirmed : bool;
  track_id : K;
  to_ltrb : float * float * float * float;
  rectangle : failure + unit;
  putText : failure + unit }.

(** The answers of the outside during one frame. *)
Record frame_io := {
  model : failure + list result;
  update_tracks : failure + list track;
  line : failure + unit;
  putText_total : failure + unit;
  imshow : failure + unit;
  write : failure + unit;
  waitKey : failure + Z }.

(** The answers of the outside during a run; the release calls at the end
    of the [try] block and those of the [except] block are answered
    apart. *)
Record world := {
  askopenfilename : failure + string;
  YOLO : failure + unit;
  DeepSort : failure + unit;
  VideoCapture : failure + bool;
  CAP_PROP_FRAME_WIDTH : float;
  CAP_PROP_FRAME_HEIGHT : float;
  CAP_PROP_FPS : float;
  VideoWriter : failure + unit;
  frames : list frame_io;
  cap_release : failure + unit;
  out_release : failure + unit;
  destroyAllWindows : failure + unit;
  cap_release_except : failure + unit;
  out_release_except : failure + unit;
  destroyAllWindows_except : failure + unit }.

Definition select_video (w : world) : N string :=
  video_path ← call AskOpenFilename (askopenfilename w);
  if String.eqb video_path "" then raise (ValueError "No video file selected")
  else mret video_path.

Definition setup_video_writer (w : world) (video_path : string) : N string :=
  let output_path := rsplit_dot video_path +:+ "_processed.mp4" in
  frame_width ← lift (py_int (CAP_PROP_FRAME_WIDTH w));
  frame_height ← lift (py_int (CAP_PROP_FRAME_HEIGHT w));
  fps ← lift (py_int (CAP_PROP_FPS w));
  call (OpenWriter output_path) (VideoWriter w);;
  mret output_path.

(** [draw_tracking_info]: the box is converted, the rectangle drawn, the
    label put [above] rows over its corner (10 in the script, 5 in the
    notebook), the converted box returned. *)
Definition draw_tracking_info (above : Z) (t : track) : N (Z * Z * Z * Z) :=
  let '(l, u, r, b) := to_ltrb t in
  x1 ← lift (py_int l);
  y1 ← lift (py_int u);
  x2 ← lift (py_int r);
  y2 ← lift (py_int b);
  call (Rectangle (x1, y1) (x2, y2)) (rectangle t);;
  call (PutText (x1, y1 - above)) (putText t);;
  mret (x1, y1, x2, y2).

(** [for track in tracks: ...] *)
Fixpoint track_loop (above : Z) (L : CountingLine) (c : counter K)
    (tracks : list track) : N (counter K) :=
  match tracks with
  | [] => mret c
  | t :: rest =>
      if negb (is_confirmed t) then track_loop above L c rest
      else
        box ← draw_tracking_info above t;
        cy ← lift (centroid_y box.1.1.2 box.2);
        track_loop above L (observe L c (track_id t) cy).2 rest
  end.

(** The body of the frame loop after a successful read. *)
Definition process_frame (above : Z) (L : CountingLine) (c : counter K)
    (f : frame_io) : N (counter K * bool) :=
  results ← call Detect (model f);
  detections ← lift (filter_detections results);
  tracks ← call (UpdateTracks detections) (update_tracks f);
  c1 ← track_loop above L c tracks;
  call (Line (line_position L)) (line f);;
  call (PutText (20, 50)) (putText_total f);;
  call ImShow (imshow f);;
  call WriteFrame (write f);;
  key ← ask (waitKey f);
  emit (WaitKey key);;
  mret (c1, Z.land key 255 =? 113).

Fixpoint frame_loop (above : Z) (L : CountingLine) (c : counter K)
    (fs : list frame_io) : N (counter K) :=
  match fs with
  | [] => emit (ReadFrame false);; mret c
  | f :: rest =>
      emit (ReadFrame true);;
      r ← process_frame above L c f;
      if (r.2 : bool) then mret r.1 else frame_loop above L r.1 rest
  end.

Definition while_opened (opened : bool) (c : counter K)
    (loop : N (counter K)) : N (counter K) :=
  if opened then loop else mret c.

Definition open_capture (w : world) (video_path : string) : N bool :=
  opened ← ask (VideoCapture w);
  emit (OpenCapture video_path opened);;
  assign_cap;;
  mret opened.

(** [cap.release(); out.release(); cv2.destroyAllWindows()] at the end of
    the run. *)
Definition cleanup (w : world) : N unit :=
  call ReleaseCapture (cap_release w);;
  call ReleaseWriter (out_release w);;
  call DestroyAllWindows (destroyAllWindows w).

(** The [try] block of [process_video] in [car_detection.py]. *)
Definition process_video_try (w : world) : N (Z * string) :=
  video_path ← select_video w;
  call LoadModel (YOLO w);;
  call InitTracker (DeepSort w);;
  opened ← open_capture w video_path;
  if negb opened
  then raise (ValueError ("Could not open video file: " +:+ video_path))
  else
    output_path ← setup_video_writer w video_path;
    assign_out;;
    frame_width ← lift (py_int (CAP_PROP_FRAME_WIDTH w));
    frame_height ← lift (py_int (CAP_PROP_FRAME_HEIGHT w));
    c ← while_opened opened new_counter
          (frame_loop 10 (script_line frame_height) new_counter (frames w));
    cleanup w;;
    mret (total_count c, output_path).

(** Its [except Exception as e] block. *)
Definition process_video_except (w : world) (x : exn) : N (Z * string) :=
  has_cap ← locals_has_cap;
  when has_cap (call ReleaseCapture (cap_release_except w));;
  has_out ← locals_has_out;
  when has_out (call ReleaseWriter (out_release_except w));;
  call DestroyAllWindows (destroyAllWindows_except w);;
  raise x.

(** [process_video] of [car_detection.py]. *)
Definition process_video (w : world) : N (Z * string) :=
  try_except (process_video_try w) (process_video_except w).

(** [process_video] of the notebook. *)
Definition notebook_process_video (w : world) : N (Z * string) :=
  video_path ← select_video w;
  call LoadModel (YOLO w);;
  call InitTracker (DeepSort w);;
  opened ← open_capture w video_path;
  output_path ← setup_video_writer w video_path;
  assign_out;;
  c ← while_opened opened new_counter
        (frame_loop 5 notebook_line new_counter (frames w));
  cleanup w;;
  mret (total_count c, output_path).

(** The observation the track loop makes of a confirmed track. *)
Definition observed_as (t : track) (call : K * Z) : Prop :=
  call.1 = track_id t ∧
  ∃ l u r b x1 y1 x2 y2,
    to_ltrb t = (l, u, r, b) ∧
    py_int l = inr x1 ∧ py_int u = inr y1 ∧
    py_int r = inr x2 ∧ py_int b = inr y2 ∧
    centroid_y y1 y2 = inr call.2.

End Run.

Arguments track K : clear implicits.
Arguments frame_io K : clear implicits.
Arguments world K : clear implicits.

(** A frame with one confirmed track on the middle row of a 640x480 stream,
    a frame on which the detector raises, one on which it is interrupted,
    and runs over such frames. *)
Definition tracks_of_frame : list (track string) :=
  [ {| is_confirmed := true; track_id := "1"%string;
       to_ltrb := (10, 230, 50, 250)%float;
       rectangle := inr (); putText := inr () |};
    {| is_confirmed := false; track_id := "2"%string;
       to_ltrb := (10, 230, 50, 250)%float;
       rectangle := inr (); putText := inr () |} ].

Definition frame_one_track : frame_io string :=
  {| model := inr [row_above_threshold];
     update_tracks := inr tracks_of_frame;
     line := inr (); putText_total := inr ();
     imshow := inr (); write := inr (); waitKey := inr (-1) |}.

Definition frame_failing (how : failure) : frame_io string :=
  {| model := inl how;
     update_tracks := inr [];
     line := inr (); putText_total := inr ();
     imshow := inr (); write := inr (); waitKey := inr (-1) |}.

Definition run_over (fs : list (frame_io string))
    (destroy : failure + unit) : world string :=
  {| askopenfilename := inr "traffic.mp4"%string;
     YOLO := inr (); DeepSort := inr ();
     VideoCapture := inr true;
     CAP_PROP_FRAME_WIDTH := 640; CAP_PROP_FRAME_HEIGHT := 480;
     CAP_PROP_FPS := 30;
     VideoWriter := inr ();
     frames := fs;
     cap_release := inr (); out_release := inr ();
     destroyAllWindows := destroy;
     cap_release_except := inr (); out_release_except := inr ();
     destroyAllWindows_except := destroy |}.

Definition not_implemented : failure :=
  Exception (ExternalError "The function is not implemented").

End Full.

(** * Properties *)

(** ** The crossing counter *)

Section CounterFacts.
Context {K : Type} {K_eq : EqDecision K} {K_countable : Countable K}.
Implicit Types (L : CountingLine) (s : counter K) (i : K) (cy : Z).
Implicit Types (calls : list (K * Z)).

Lemma in_band_spec L cy : in_band L cy = true ↔ inside_band L cy.
Proof.
  unfold in_band, inside_band. rewrite andb_true_iff, !Z.ltb_lt. tauto.
Qed.

Lemma observe_result L s i cy :
  (observe L s i cy).1 = in_band L cy && bool_decide (i ∉ counted_ids s).
Proof.
  unfold observe. destruct (in_band L cy); [|done].
  destruct (decide (i ∈ counted_ids s)); simpl.
  - rewrite bool_decide_eq_false_2; [done|]. tauto.
  - rewrite bool_decide_eq_true_2; done.
Qed.

Lemma observe_counted L s i cy :
  counted_ids (observe L s i cy).2 =
  if in_band L cy then {[ i ]} ∪ counted_ids s else counted_ids s.
Proof.
  unfold observe. destruct (in_band L cy); [|done].
  destruct (decide (i ∈ counted_ids s)); simpl; [|done]. set_solver.
Qed.

Lemma observe_total L s i cy :
  total_count (observe L s i cy).2 =
  if (observe L s i cy).1 then total_count s + 1 else total_count s.
Proof.
  unfold observe. destruct (in_band L cy); [|done].
  destruct (decide (i ∈ counted_ids s)); done.
Qed.

Lemma observe_false L s i cy :
  (observe L s i cy).1 = false → (observe L s i cy).2 = s.
Proof.
  unfold observe. destruct (in_band L cy); [|done].
  destruct (decide (i ∈ counted_ids s)); done.
Qed.

Lemma observe_seq_cons L s i cy rest :
  observe_seq L s ((i, cy) :: rest) =
  ((observe L s i cy).1 :: (observe_seq L (observe L s i cy).2 rest).1,
   (observe_seq L (observe L s i cy).2 rest).2).
Proof.
  cbn [observe_seq]. destruct (observe L s i cy) as [r s1]. cbn [fst snd].
  destruct (observe_seq L s1 rest) as [rs s2]. done.
Qed.

Lemma banded_cons L i cy rest :
  banded L ((i, cy) :: rest) =
  if in_band L cy then {[ i ]} ∪ banded L rest else banded L rest.
Proof.
  unfold banded. rewrite filter_cons. simpl.
  destruct (in_band L cy) eqn:E.
  - rewrite decide_True by done. done.
  - rewrite decide_False by congruence. done.
Qed.

Lemma elem_of_banded L calls i :
  i ∈ banded L calls ↔ ∃ cy, (i, cy) ∈ calls ∧ inside_band L cy.
Proof.
  induction calls as [|[j y] rest IH].
  - unfold banded. simpl. split; [set_solver|].
    intros (cy & Hin & _). by apply elem_of_nil in Hin.
  - rewrite banded_cons. destruct (in_band L y) eqn:E.
    + rewrite elem_of_union, elem_of_singleton, IH. split.
      * intros [->|(cy & Hin & Hb)].
        -- exists y. split; [left|by apply in_band_spec].
        -- exists cy. split; [by right|done].
      * intros (cy & Hin & Hb). apply elem_of_cons in Hin as [Heq|Hin].
        -- left. congruence.
        -- right. eauto.
    + rewrite IH. split.
      * intros (cy & Hin & Hb). exists cy. split; [by right|done].
      * intros (cy & Hin & Hb). apply elem_of_cons in Hin as [Heq|Hin].
        -- apply in_band_spec in Hb. congruence.
        -- eauto.
Qed.

(** The state after a sequence, from any start. *)
Lemma observe_seq_counted L calls : ∀ s,
  counted_ids (observe_seq L s calls).2 = counted_ids s ∪ banded L calls.
Proof.
  induction calls as [|[i cy] rest IH]; intros s.
  - unfold banded. simpl. set_solver.
  - rewrite observe_seq_cons, banded_cons. simpl.
    rewrite IH, observe_counted. destruct (in_band L cy); set_solver.
Qed.

Lemma in_sync_new : in_sync (new_counter (K:=K)).
Proof.
  unfold in_sync, new_counter. cbn [total_count counted_ids].
  rewrite size_empty. done.
Qed.

Lemma in_sync_observe L s i cy :
  in_sync s → in_sync (observe L s i cy).2.
Proof.
  unfold in_sync, observe. intros Hs. destruct (in_band L cy); [|done].
  destruct (decide (i ∈ counted_ids s)); simpl; [done|].
  rewrite (size_union (C:=gset K) {[i]}) by set_solver.
  rewrite size_singleton. lia.
Qed.

Lemma in_sync_observe_seq L calls : ∀ s,
  in_sync s → in_sync (observe_seq L s calls).2.
Proof.
  induction calls as [|[i cy] rest IH]; intros s Hs; [done|].
  rewrite observe_seq_cons. simpl. by apply IH, in_sync_observe.
Qed.

Lemma observe_grows L s i cy :
  counted_ids s ⊆ counted_ids (observe L s i cy).2 ∧
  total_count s ≤ total_count (observe L s i cy).2.
Proof.
  rewrite observe_counted, observe_total.
  destruct (in_band L cy), (observe L s i cy).1; split; set_solver || lia.
Qed.

Lemma observe_seq_grows L calls : ∀ s,
  counted_ids s ⊆ counted_ids (observe_seq L s calls).2 ∧
  total_count s ≤ total_count (observe_seq L s calls).2.
Proof.
  induction calls as [|[i cy] rest IH]; intros s; [done|].
  rewrite observe_seq_cons. simpl.
  destruct (observe_grows L s i cy) as [Hc Ht].
  destruct (IH (observe L s i cy).2) as [Hc' Ht'].
  split; [set_solver|lia].
Qed.

(** An identity that is already counted gets no further increment. *)
Lemma increments_of_counted L i calls : ∀ s,
  i ∈ counted_ids s →
  increments_of i calls (observe_seq L s calls).1 = 0%nat.
Proof.
  induction calls as [|[j cy] rest IH]; intros s Hi; [done|].
  rewrite observe_seq_cons. cbn [increments_of fst].
  rewrite IH by (apply (observe_grows L s j cy); done).
  rewrite observe_result. case_bool_decide as Hj; [|done]. subst j.
  rewrite (bool_decide_eq_false_2 (i ∉ counted_ids s)) by tauto.
  by rewrite andb_false_r.
Qed.

Lemma increments_of_le_1 L i calls : ∀ s,
  (increments_of i calls (observe_seq L s calls).1 ≤ 1)%nat.
Proof.
  induction calls as [|[j cy] rest IH]; intros s; [simpl; lia|].
  rewrite observe_seq_cons. cbn [increments_of fst].
  case_bool_decide as Hj; [|apply IH]. subst j.
  destruct (observe L s i cy).1 eqn:E; [|apply IH]. simpl.
  rewrite increments_of_counted; [lia|].
  rewrite observe_counted. rewrite observe_result in E.
  apply andb_true_iff in E as [-> _]. set_solver.
Qed.

End CounterFacts.

Section CounterClaims.
Context {K : Type} {K_eq : EqDecision K} {K_countable : Countable K}.
Implicit Types (L : CountingLine) (s : counter K) (i : K) (cy : Z).
Implicit Types (calls : list (K * Z)).

(** C1: a call [observe(track_id, centroid_y)] returns true and adds exactly
    one to the total if and only if the centroid lies strictly inside
    [(line_position - offset, line_position + offset)] and the identity is
    not in the counted set; on a true result the identity is added to the
    set; in every other case the call returns false (and changes
    nothing). *)
Theorem observe_counts_iff L s i cy :
  let r := (observe L s i cy).1 in
  let s' := (observe L s i cy).2 in
  (r = true ∧ total_count s' = total_count s + 1
     ↔ inside_band L cy ∧ i ∉ counted_ids s) ∧
  (r = true → counted_ids s' = {[ i ]} ∪ counted_ids s ∧ i ∈ counted_ids s') ∧
  (¬ (inside_band L cy ∧ i ∉ counted_ids s) → r = false ∧ s' = s).
Proof.
  intros r s'. subst r s'.
  rewrite <- in_band_spec. unfold observe.
  destruct (in_band L cy); [destruct (decide (i ∈ counted_ids s))|]; simpl.
  - split; [|split]; [split| |]; try done; intros [? ?]; done.
  - split; [|split]; [split| |]; try done.
    + intros _. split; [done|]. set_solver.
    + intros Hn. exfalso. apply Hn. done.
  - split; [|split]; [split| |]; try done; intros [? ?]; done.
Qed.

(** C2: after any sequence of calls on a new counter, the total is the
    number of distinct identities whose centroid was strictly inside the
    band on at least one of their calls, and no identity got more than one
    increment. *)
Theorem total_counts_distinct_banded L calls :
  let run := observe_seq L new_counter calls in
  ∃ ids : gset K,
    (∀ i, i ∈ ids ↔ ∃ cy, (i, cy) ∈ calls ∧ inside_band L cy) ∧
    total_count run.2 = Z.of_nat (size ids) ∧
    ∀ i, (increments_of i calls run.1 ≤ 1)%nat.
Proof.
  intros run. subst run. exists (banded L calls). split; [|split].
  - intros i. apply elem_of_banded.
  - rewrite (in_sync_observe_seq L calls new_counter in_sync_new).
    rewrite observe_seq_counted. cbn [new_counter counted_ids].
    by rewrite (left_id_L ∅ (∪)).
  - intros i. apply increments_of_le_1.
Qed.

(** C3: when the identity is already in the counted set, a further call
    with a centroid inside the band returns false and leaves the total
    unchanged. *)
Theorem observe_counted_again L s i cy :
  i ∈ counted_ids s →
  inside_band L cy →
  (observe L s i cy).1 = false ∧
  total_count (observe L s i cy).2 = total_count s.
Proof.
  intros Hi Hb. apply in_band_spec in Hb. unfold observe. rewrite Hb.
  rewrite decide_True by done. done.
Qed.

(** C4: across every call the counted set after the call contains the
    counted set before it and the total does not decrease; so it is across
    any sequence of calls. *)
Theorem counter_only_grows L s :
  (∀ i cy,
     counted_ids s ⊆ counted_ids (observe L s i cy).2 ∧
     total_count s ≤ total_count (observe L s i cy).2) ∧
  (∀ calls,
     counted_ids s ⊆ counted_ids (observe_seq L s calls).2 ∧
     total_count s ≤ total_count (observe_seq L s calls).2).
Proof.
  split.
  - intros i cy. apply observe_grows.
  - intros calls. apply observe_seq_grows.
Qed.

(** C5: for an identity not yet counted, a centroid exactly on
    [line_position - offset] or on [line_position + offset] returns false,
    and, the offset being positive, a centroid on [line_position] returns
    true. *)
Theorem band_boundaries_exclusive L s i :
  i ∉ counted_ids s →
  0 < offset L →
  (observe L s i (line_position L - offset L)).1 = false ∧
  (observe L s i (line_position L + offset L)).1 = false ∧
  (observe L s i (line_position L)).1 = true.
Proof.
  intros Hi Hoff. rewrite !observe_result.
  rewrite (bool_decide_eq_true_2 _ Hi), !andb_true_r. unfold in_band.
  repeat split.
  - rewrite Z.ltb_irrefl. done.
  - rewrite Z.ltb_irrefl. apply andb_false_r.
  - apply andb_true_iff. rewrite !Z.ltb_lt. lia.
Qed.

(** C9: in every state reached from a new counter, and after every further
    call, the total equals the cardinality of the counted set. *)
Theorem total_is_cardinality L calls i cy :
  let s := (observe_seq L new_counter calls).2 in
  total_count s = Z.of_nat (size (counted_ids s)) ∧
  total_count (observe L s i cy).2 =
    Z.of_nat (size (counted_ids (observe L s i cy).2)).
Proof.
  intros s. subst s.
  pose proof (in_sync_observe_seq L calls new_counter in_sync_new) as Hs.
  split; [exact Hs|]. by apply in_sync_observe.
Qed.

(** C10: two calls with distinct identities commute: either order gives the
    same counted set and the same total. *)
Theorem observe_commutes L s i1 i2 cy1 cy2 :
  i1 ≠ i2 →
  let s12 := (observe L (observe L s i1 cy1).2 i2 cy2).2 in
  let s21 := (observe L (observe L s i2 cy2).2 i1 cy1).2 in
  counted_ids s12 = counted_ids s21 ∧ total_count s12 = total_count s21.
Proof.
  intros Hne s12 s21. subst s12 s21. split.
  - rewrite !observe_counted.
    destruct (in_band L cy1), (in_band L cy2); set_solver.
  - rewrite !observe_total, !observe_result, !observe_counted.
    destruct (in_band L cy1), (in_band L cy2); simpl; try done.
    rewrite (bool_decide_ext (i2 ∉ {[i1]} ∪ counted_ids s)
               (i2 ∉ counted_ids s)) by set_solver.
    rewrite (bool_decide_ext (i1 ∉ {[i2]} ∪ counted_ids s)
               (i1 ∉ counted_ids s)) by set_solver.
    destruct (bool_decide (i1 ∉ counted_ids s)),
      (bool_decide (i2 ∉ counted_ids s)); lia.
Qed.

End CounterClaims.

(** Scenario A: identity 1 at rows 250, 205, 198 against the band
    (190, 210). *)
Example scenario_A :
  (observe_seq line_200 new_counter
     [("1"%string, 250); ("1"%string, 205); ("1"%string, 198)]).1
    = [false; true; false] ∧
  total_count
    (observe_seq line_200 new_counter
       [("1"%string, 250); ("1"%string, 205); ("1"%string, 198)]).2 = 1.
Proof. vm_compute. done. Qed.

(** Scenario B: two identities inside the band, one after the other. *)
Example scenario_B :
  observe_seq line_200 new_counter [("1"%string, 205); ("2"%string, 195)]
    = ([true; true],
       {| counted_ids := {[ "2"%string ]} ∪ ({[ "1"%string ]} ∪ ∅);
          total_count := 2 |}).
Proof.
  rewrite !observe_seq_cons. unfold observe, new_counter. cbn [in_band].
  rewrite decide_False by set_solver. cbn [snd counted_ids].
  rewrite decide_False by set_solver. reflexivity.
Qed.

(** The theorems with hypotheses, at the states of scenario A. *)

Lemma observe_counted_again_witness :
  "1"%string ∈ counted_ids counted_1 ∧ inside_band line_200 198 ∧
  (observe line_200 counted_1 "1"%string 198).1 = false ∧
  total_count (observe line_200 counted_1 "1"%string 198).2 =
    total_count counted_1.
Proof.
  assert (H1 : "1"%string ∈ counted_ids counted_1)
    by (apply elem_of_singleton; reflexivity).
  assert (H2 : inside_band line_200 198)
    by (unfold inside_band; simpl; lia).
  split; [exact H1|]. split; [exact H2|].
  exact (observe_counted_again line_200 counted_1 "1"%string 198 H1 H2).
Defined.

Lemma band_boundaries_exclusive_witness :
  ("2"%string ∉ counted_ids counted_1) ∧ 0 < offset line_200 ∧
  (observe line_200 counted_1 "2"%string 190).1 = false ∧
  (observe line_200 counted_1 "2"%string 210).1 = false ∧
  (observe line_200 counted_1 "2"%string 200).1 = true.
Proof.
  assert (H1 : "2"%string ∉ counted_ids counted_1)
    by (unfold counted_1; cbn [counted_ids]; intros Hin;
        apply elem_of_singleton in Hin; discriminate Hin).
  assert (H2 : 0 < offset line_200) by (simpl; lia).
  split; [exact H1|]. split; [exact H2|].
  exact (band_boundaries_exclusive line_200 counted_1 "2"%string H1 H2).
Defined.

Lemma observe_commutes_witness :
  ("2"%string ≠ "3"%string) ∧
  counted_ids
    (observe line_200 (observe line_200 counted_1 "2"%string 195).2
       "3"%string 205).2 =
  counted_ids
    (observe line_200 (observe line_200 counted_1 "3"%string 205).2
       "2"%string 195).2 ∧
  total_count
    (observe line_200 (observe line_200 counted_1 "2"%string 195).2
       "3"%string 205).2 =
  total_count
    (observe line_200 (observe line_200 counted_1 "3"%string 205).2
       "2"%string 195).2.
Proof.
  assert (H1 : "2"%string ≠ "3"%string) by discriminate.
  split; [exact H1|].
  exact (observe_commutes line_200 counted_1 "2"%string "3"%string 195 205 H1).
Defined.


(** ** The detection filter *)

Lemma is_vehicle_spec c r :
  is_vehicle c r = true ↔
  c ∈ vehicle_classes ∧ (confidence_threshold <? score r)%float = true.
Proof.
  unfold is_vehicle. rewrite andb_true_iff, bool_decide_eq_true. done.
Qed.

Lemma filter_detections_cons r rest detections :
  filter_detections (r :: rest) = inr detections →
  ∃ c ds, py_int (class_id r) = inr c ∧ filter_detections rest = inr ds ∧
          detections = if is_vehicle c r then to_detection c r :: ds else ds.
Proof.
  cbn [filter_detections]. unfold mbind, exn_bind, mret, exn_ret.
  destruct (py_int (class_id r)) as [x|c]; [done|].
  destruct (filter_detections rest) as [x|ds]; [done|].
  intros [= <-]. eauto.
Qed.

(** When the class conversions of a frame's rows do not raise, the list
    handed to the tracker holds exactly the detections of the rows whose
    converted class is a vehicle class and whose score is above the
    threshold. *)
Lemma filter_detections_elem results : ∀ detections,
  filter_detections results = inr detections →
  ∀ d, d ∈ detections ↔
       ∃ r c, r ∈ results ∧ py_int (class_id r) = inr c ∧
              d = to_detection c r ∧ c ∈ vehicle_classes ∧
              (confidence_threshold <? score r)%float = true.
Proof.
  induction results as [|r rest IH]; intros detections Hf d.
  - injection Hf as <-. split.
    + intros Hd. by apply elem_of_nil in Hd.
    + intros (r & c & Hr & _). by apply elem_of_nil in Hr.
  - apply filter_detections_cons in Hf as (c & ds & Hc & Hrest & ->).
    specialize (IH ds Hrest d). split.
    + intros Hd. destruct (is_vehicle c r) eqn:Hv.
      * apply elem_of_cons in Hd as [->|Hd].
        -- apply is_vehicle_spec in Hv as [Hcls Hsc].
           exists r, c. split; [left|done].
        -- apply IH in Hd as (r' & c' & Hr' & Hrest').
           exists r', c'. split; [by right|done].
      * apply IH in Hd as (r' & c' & Hr' & Hrest').
        exists r', c'. split; [by right|done].
    + intros (r' & c' & Hr' & Hc' & -> & Hcls & Hsc).
      apply elem_of_cons in Hr' as [->|Hr'].
      * assert (c' = c) as -> by congruence.
        rewrite (proj2 (is_vehicle_spec c r)) by done. left.
      * assert (to_detection c' r' ∈ ds) as Hd.
        { apply IH. exists r', c'. done. }
        destruct (is_vehicle c r); [by right|done].
Qed.

Lemma py_int_finite x : finite x = true → ∃ c, py_int x = inr c.
Proof.
  unfold finite. intros [Hn Hi]%andb_true_iff.
  apply negb_true_iff in Hn, Hi. unfold py_int, Prim2SF. rewrite Hn.
  destruct (is_zero x); [by eexists|]. rewrite Hi.
  destruct (Z.frexp x) as [m ex].
  destruct (shr_fexp prec emax _ _ _) as [shr e'].
  destruct (shr_m shr); by eexists.
Qed.

Lemma filter_detections_finite results :
  (∀ r, r ∈ results → finite (class_id r) = true) →
  ∃ detections, filter_detections results = inr detections.
Proof.
  induction results as [|r rest IH]; intros Hfin; [by eexists|].
  destruct (py_int_finite (class_id r)) as [c Hc]; [apply Hfin; left|].
  destruct IH as [ds Hds]; [intros r' Hr'; apply Hfin; by right|].
  cbn [filter_detections]. unfold mbind, exn_bind, mret, exn_ret.
  rewrite Hc, Hds. by eexists.
Qed.

(** C6, as the code has it: in a frame whose rows all have a finite class
    id (neither NaN nor an infinity, so that [int(class_id)] does not
    raise), every row converts to an integer class, and the detection of a
    row is forwarded to the tracker if and only if that integer is one of
    2, 3, 5, 7 and the score of the row is strictly greater than 0.4. *)
Theorem forwarded_iff_vehicle_above_threshold results r :
  (∀ r', r' ∈ results → finite (class_id r') = true) →
  r ∈ results →
  ∃ c, py_int (class_id r) = inr c ∧
       (forwarded results r ↔
        c ∈ vehicle_classes ∧ above_threshold r = true).
Proof.
  intros Hfin Hr.
  destruct (py_int_finite (class_id r) (Hfin r Hr)) as [c Hc].
  destruct (filter_detections_finite results Hfin) as [ds Hds].
  exists c. split; [done|]. split.
  - intros (ds' & c' & Hds' & Hc' & Hin).
    assert (ds' = ds) as -> by congruence.
    assert (c' = c) as -> by congruence.
    apply (filter_detections_elem results ds Hds) in Hin
      as (r' & c' & _ & _ & Heq & Hcls & Hsc).
    unfold to_detection in Heq. injection Heq as _ _ _ _ Hscore ->.
    unfold above_threshold. by rewrite Hscore.
  - intros [Hcls Hsc]. exists ds, c. split; [done|]. split; [done|].
    apply (filter_detections_elem results ds Hds). exists r, c. done.
Qed.

Lemma forwarded_iff_vehicle_above_threshold_witness :
  (∀ r', r' ∈ [row_at_threshold; row_above_threshold] →
         finite (class_id r') = true) ∧
  row_above_threshold ∈ [row_at_threshold; row_above_threshold] ∧
  ∃ c, py_int (class_id row_above_threshold) = inr c ∧
       (forwarded [row_at_threshold; row_above_threshold]
          row_above_threshold ↔
        c ∈ vehicle_classes ∧ above_threshold row_above_threshold = true).
Proof.
  assert (H1 : ∀ r', r' ∈ [row_at_threshold; row_above_threshold] →
                     finite (class_id r') = true).
  { intros r' Hr'. apply elem_of_cons in Hr' as [->|Hr'].
    - vm_compute. reflexivity.
    - apply elem_of_cons in Hr' as [->|Hr'].
      + vm_compute. reflexivity.
      + by apply elem_of_nil in Hr'. }
  assert (H2 : row_above_threshold
               ∈ [row_at_threshold; row_above_threshold])
    by (right; left).
  split; [exact H1|]. split; [exact H2|].
  exact (forwarded_iff_vehicle_above_threshold _ _ H1 H2).
Defined.

Lemma not_forwarded_when_filter_raises results r x :
  filter_detections results = inl x → ¬ forwarded results r.
Proof. intros Hx (ds & c & Hds & _). congruence. Qed.

(** C6 as the spec words it fails in three ways.  A vehicle row whose score
    is exactly 0.4 meets the minimum confidence and is not forwarded.  With
    the threshold made exclusive, a vehicle row scoring 0.5 is still not
    forwarded when another row of its frame has a NaN class id: the filter
    raises.  And with every class id finite, a row of class id 2.5 is
    forwarded, as class 2, although 2.5 is none of 2, 3, 5, 7. *)
Lemma filter_claim_fails :
  ¬ (∀ results r, r ∈ results →
       (forwarded results r ↔
        class_listed r = true ∧ meets_minimum_confidence r = true)) ∧
  ¬ (∀ results r, r ∈ results →
       (forwarded results r ↔
        class_listed r = true ∧ above_threshold r = true)) ∧
  ¬ (∀ results r,
       (∀ r', r' ∈ results → finite (class_id r') = true) →
       r ∈ results →
       (forwarded results r ↔
        class_listed r = true ∧ above_threshold r = true)).
Proof.
  split; [|split].
  - intros Hclaim.
    destruct (Hclaim [row_at_threshold] row_at_threshold) as [_ Hfwd];
      [left|].
    destruct Hfwd as (ds & c & Hds & _ & Hin).
    + split; vm_compute; reflexivity.
    + vm_compute in Hds. injection Hds as <-. by apply elem_of_nil in Hin.
  - intros Hclaim.
    destruct (Hclaim [row_nan_class; row_above_threshold]
                row_above_threshold) as [_ Hfwd]; [right; left|].
    apply (not_forwarded_when_filter_raises
             [row_nan_class; row_above_threshold] row_above_threshold
             (ValueError "cannot convert float NaN to integer")).
    + vm_compute. reflexivity.
    + apply Hfwd. split; vm_compute; reflexivity.
  - intros Hclaim.
    destruct (Hclaim [row_fractional_class] row_fractional_class)
      as [Hfwd _].
    + intros r' Hr'. apply elem_of_cons in Hr' as [->|Hr'].
      * vm_compute. reflexivity.
      * by apply elem_of_nil in Hr'.
    + left.
    + destruct Hfwd as [Hcls _]; [|vm_compute in Hcls; discriminate Hcls].
      exists [to_detection 2 row_fractional_class], 2.
      split; [vm_compute; reflexivity|].
      split; [vm_compute; reflexivity|left].
Qed.

(** ** The run and its resources *)

(** The full cleanup closes everything, whatever came before. *)
Lemma left_open_cleanup tr :
  left_open (((tr ++ [ReleaseCapture]) ++ [ReleaseWriter])
             ++ [DestroyAllWindows]) = nothing_open.
Proof. unfold left_open. rewrite !fold_left_app. reflexivity. Qed.

Lemma keeps_locals_ret {A} (a : A) : keeps_locals (mret a).
Proof. intros e. done. Qed.

Lemma keeps_locals_lift {A} (r : exn + A) : keeps_locals (lift r).
Proof. intros e. done. Qed.

Lemma keeps_locals_call {A} ev (r : exn + A) : keeps_locals (call ev r).
Proof. intros e. unfold call. destruct r; done. Qed.

Lemma keeps_locals_bind {A B} (m : M A) (k : A → M B) :
  keeps_locals m → (∀ a, keeps_locals (k a)) → keeps_locals (m ≫= k).
Proof.
  intros Hm Hk e. unfold mbind, M_bind. specialize (Hm e).
  destruct (m e) as [e1 [x|a]]; [done|].
  specialize (Hk a e1). cbn [fst] in Hm. destruct Hk as [-> ->]. done.
Qed.

Create HintDb locals.

#[local] Hint Resolve keeps_locals_ret keeps_locals_lift keeps_locals_call
  : locals.

Section RunFacts.
Context {K : Type} {K_eq : EqDecision K} {K_countable : Countable K}.
Implicit Types (w : world K) (f : frame_io K) (c : counter K).

Lemma keeps_locals_draw (t : track K) : keeps_locals (draw_tracking_info t).
Proof.
  unfold draw_tracking_info. destruct (to_ltrb t) as [[[l u] r] b].
  repeat (apply keeps_locals_bind; [auto with locals|intros ?]).
  auto with locals.
Qed.

Lemma keeps_locals_track_loop L tracks : ∀ c,
  keeps_locals (track_loop L c tracks).
Proof.
  induction tracks as [|t rest IH]; intros c; cbn [track_loop].
  - auto with locals.
  - destruct (negb (is_confirmed t)); [apply IH|].
    apply keeps_locals_bind; [apply keeps_locals_draw|].
    intros [[[? ?] ?] ?].
    apply keeps_locals_bind; [auto with locals|intros ?]. apply IH.
Qed.

Lemma keeps_locals_process_frame L c f : keeps_locals (process_frame L c f).
Proof.
  unfold process_frame, emit.
  apply keeps_locals_bind; [auto with locals|intros ?].
  apply keeps_locals_bind; [auto with locals|intros ?].
  apply keeps_locals_bind; [auto with locals|intros ?].
  apply keeps_locals_bind; [apply keeps_locals_track_loop|intros ?].
  repeat (apply keeps_locals_bind; [auto with locals|intros ?]).
  auto with locals.
Qed.

Lemma keeps_locals_frame_loop L fs : ∀ c,
  keeps_locals (frame_loop L c fs).
Proof.
  induction fs as [|f rest IH]; intros c; cbn [frame_loop]; unfold emit.
  - apply keeps_locals_bind; [auto with locals|intros ?]. auto with locals.
  - apply keeps_locals_bind; [auto with locals|intros ?].
    apply keeps_locals_bind; [apply keeps_locals_process_frame|intros r].
    destruct (r.2 : bool); [auto with locals|apply IH].
Qed.

(** The handler never swallows: it ends in [raise] of what it caught. *)
Lemma process_video_except_raises x e :
  (process_video_except x e).2 = inl x.
Proof.
  unfold process_video_except, locals_has_cap, locals_has_out, when, emit,
    call, raise, lift, log, mbind, M_bind, mret, M_ret.
  destruct e as [tr [|] [|]]; reflexivity.
Qed.

(** With both [cap] and [out] bound the handler performs the full
    cleanup. *)
Lemma process_video_except_bound x e :
  cap_bound e = true → out_bound e = true →
  trace (process_video_except x e).1 =
  ((trace e ++ [ReleaseCapture]) ++ [ReleaseWriter]) ++ [DestroyAllWindows].
Proof.
  unfold process_video_except, locals_has_cap, locals_has_out, when, emit,
    call, raise, lift, log, mbind, M_bind, mret, M_ret.
  destruct e as [tr cb ob]. cbn. intros -> ->. reflexivity.
Qed.

(** [car_detection.py], in the model where every failure is an [Exception]
    and the release calls return: on every exit of [process_video], by
    return or by exception, nothing the run opened is left open, and an
    exception of the [try] block is the one the caller gets.  The exits with
    interrupts and with failing release calls are in [FullFacts]. *)
Lemma process_video_releases w :
  left_open (trace (process_video w start).1) = nothing_open ∧
  ∀ x, (process_video_try w start).2 = inl x →
       (process_video w start).2 = inl x.
Proof.
  split.
  - unfold process_video, try_except, process_video_try, select_video,
      open_capture, setup_video_writer, while_opened.
    unfold mbind, M_bind.
    unfold call at 1. destruct (askopenfilename w) as [x|p]; [reflexivity|].
    destruct (String.eqb p ""); [reflexivity|]. cbn [mret M_ret].
    unfold call at 1. destruct (YOLO w) as [x|[]]; [reflexivity|].
    unfold call at 1. destruct (DeepSort w) as [x|[]]; [reflexivity|].
    unfold lift at 1. destruct (VideoCapture w) as [x|[|]]; [reflexivity| |].
    + cbn [emit call assign_cap negb log trace cap_bound out_bound start].
      unfold lift at 1.
      destruct (py_int (CAP_PROP_FRAME_WIDTH w)) as [x|fw]; [reflexivity|].
      unfold lift at 1.
      destruct (py_int (CAP_PROP_FRAME_HEIGHT w)) as [x|fh]; [reflexivity|].
      unfold lift at 1.
      destruct (py_int (CAP_PROP_FPS w)) as [x|fps]; [reflexivity|].
      unfold call at 1. destruct (VideoWriter w) as [x|[]]; [reflexivity|].
      cbn [assign_out log trace cap_bound out_bound lift mret M_ret].
      cbn [negb]. cbv beta. cbn [trace cap_bound out_bound].
      match goal with
      | |- context [frame_loop ?L ?c ?fs ?e] =>
          pose proof (keeps_locals_frame_loop L fs c e) as [Hc Ho];
          destruct (frame_loop L c fs e) as [e1 [x|c1]]
      end; cbn [fst cap_bound out_bound] in Hc, Ho.
      * rewrite process_video_except_bound by done.
        apply left_open_cleanup.
      * cbn. apply left_open_cleanup.
    + reflexivity.
  - intros x Hx. unfold process_video, try_except.
    destruct (process_video_try w start) as [e1 [y|a]]; [|done].
    cbn [snd] in Hx. injection Hx as ->.
    apply process_video_except_raises.
Qed.

(** C8: when the dialog yields an empty path, [process_video] raises
    before the model, the tracker, the capture or the writer is asked for;
    when the capture cannot be opened ([isOpened()] is false, or its
    construction raises), it raises before the writer is set up and before
    any frame is read. *)
Theorem abort_before_processing w :
  (askopenfilename w = inr ""%string →
   process_video w start =
     ({| trace := [AskOpenFilename; DestroyAllWindows];
         cap_bound := false; out_bound := false |},
      inl (ValueError "No video file selected"))) ∧
  (∀ p, askopenfilename w = inr p → p ≠ ""%string →
        YOLO w = inr () → DeepSort w = inr () →
        (VideoCapture w = inr false →
         process_video w start =
           ({| trace := [AskOpenFilename; LoadModel; InitTracker;
                         OpenCapture p false;
                         ReleaseCapture; DestroyAllWindows];
               cap_bound := true; out_bound := false |},
            inl (ValueError ("Could not open video file: " +:+ p)))) ∧
        (∀ x, VideoCapture w = inl x →
         process_video w start =
           ({| trace := [AskOpenFilename; LoadModel; InitTracker;
                         DestroyAllWindows];
               cap_bound := false; out_bound := false |},
            inl x))).
Proof.
  split.
  - intros Hsel. unfold process_video, try_except, process_video_try,
      select_video, mbind, M_bind. rewrite Hsel. reflexivity.
  - intros p Hsel Hp Hyolo Hsort.
    assert (String.eqb p "" = false) as Hpb by (by apply String.eqb_neq).
    split; [intros Hcap|intros x Hcap];
      unfold process_video, try_except, process_video_try, select_video,
        open_capture, mbind, M_bind;
      rewrite Hsel; cbn [call log start trace cap_bound out_bound];
      rewrite Hpb; cbn [mret M_ret]; rewrite Hyolo, Hsort, Hcap; reflexivity.
Qed.

End RunFacts.

Lemma abort_before_processing_witness :
  process_video (world_of "" true [frame_two_tracks]) start =
    ({| trace := [AskOpenFilename; DestroyAllWindows];
        cap_bound := false; out_bound := false |},
     inl (ValueError "No video file selected")) ∧
  process_video (world_of "traffic.mp4" false [frame_two_tracks]) start =
    ({| trace := [AskOpenFilename; LoadModel; InitTracker;
                  OpenCapture "traffic.mp4" false;
                  ReleaseCapture; DestroyAllWindows];
        cap_bound := true; out_bound := false |},
     inl (ValueError "Could not open video file: traffic.mp4")).
Proof.
  split.
  - exact (proj1 (abort_before_processing
                    (world_of "" true [frame_two_tracks])) eq_refl).
  - refine (proj1 (proj2 (abort_before_processing
                    (world_of "traffic.mp4" false [frame_two_tracks]))
                    "traffic.mp4"%string eq_refl _ eq_refl eq_refl) eq_refl).
    discriminate.
Defined.

(** C7 on the notebook's [process_video], which has no [try]: when the
    detector raises on the second frame the exception reaches the caller
    with the capture, the writer and the window still open, where the
    script's handler has released all three. *)
Theorem notebook_leaks_when_frame_fails :
  notebook_process_video failing_world start =
    ({| trace := [AskOpenFilename; LoadModel; InitTracker;
                  OpenCapture "traffic.mp4" true;
                  OpenWriter "traffic_processed.mp4";
                  ReadFrame true; Detect;
                  UpdateTracks [to_detection 7 row_above_threshold];
                  ImShow; WriteFrame; WaitKey (-1);
                  ReadFrame true];
        cap_bound := true; out_bound := true |},
     inl (ExternalError "inference failed")) ∧
  left_open (trace (notebook_process_video failing_world start).1) =
    {| cap_open := true; out_open := true; window_open := true |} ∧
  (process_video failing_world start).2 =
    inl (ExternalError "inference failed") ∧
  left_open (trace (process_video failing_world start).1) = nothing_open.
Proof. vm_compute. repeat split. Qed.

(** * Further properties of the code *)

(** ** The counter over sequences of observations *)

Section CounterSequences.
Context {K : Type} {K_eq : EqDecision K} {K_countable : Countable K}.
Implicit Types (L : CountingLine) (s : counter K) (i : K) (cy : Z).
Implicit Types (calls : list (K * Z)).

Lemma observe_seq_app_state L calls1 calls2 : ∀ s,
  observe_seq L s (calls1 ++ calls2) =
  ((observe_seq L s calls1).1
     ++ (observe_seq L (observe_seq L s calls1).2 calls2).1,
   (observe_seq L (observe_seq L s calls1).2 calls2).2).
Proof.
  induction calls1 as [|[i cy] rest IH]; intros s.
  - cbn [app observe_seq fst snd].
    by destruct (observe_seq L s calls2).
  - rewrite <- app_comm_cons, !observe_seq_cons, IH. reflexivity.
Qed.

(** After any sequence of calls, from any state, the counted identities are
    those counted before and those whose centroid was strictly inside the
    band on some call; an identity that never entered the band and was not
    counted before is not counted. *)
Theorem counted_after_sequence L s calls i :
  i ∈ counted_ids (observe_seq L s calls).2 ↔
  i ∈ counted_ids s ∨ ∃ cy, (i, cy) ∈ calls ∧ inside_band L cy.
Proof.
  rewrite observe_seq_counted, elem_of_union, elem_of_banded. done.
Qed.

(** Once an identity is counted, no later call of it returns true, whether
    its centroid stays in the band, leaves it or comes back. *)
Theorem counted_never_recounted L s calls i :
  i ∈ counted_ids s →
  increments_of i calls (observe_seq L s calls).1 = 0%nat.
Proof. apply increments_of_counted. Qed.

(** The same call twice: the second returns false and changes nothing. *)
Theorem observe_twice L s i cy :
  observe L (observe L s i cy).2 i cy = (false, (observe L s i cy).2).
Proof.
  unfold observe at 1. destruct (in_band L cy) eqn:Hb; [|done].
  rewrite decide_True; [done|].
  rewrite observe_counted, Hb. set_solver.
Qed.

End CounterSequences.

Lemma counted_never_recounted_witness :
  "1"%string ∈ counted_ids counted_1 ∧
  increments_of "1"%string [("1"%string, 198); ("1"%string, 250);
                            ("1"%string, 201)]
    (observe_seq line_200 counted_1
       [("1"%string, 198); ("1"%string, 250); ("1"%string, 201)]).1
  = 0%nat.
Proof.
  assert (H1 : "1"%string ∈ counted_ids counted_1)
    by (apply elem_of_singleton; reflexivity).
  split; [exact H1|].
  exact (counted_never_recounted line_200 counted_1 _ "1"%string H1).
Defined.

(** ** The detection filter: errors and order *)

(** The filter raises exactly when the class id of some row has no integer
    (NaN or an infinity), whatever the score of that row: the conversion
    comes before the score test. *)
Theorem filter_raises_iff results :
  (∃ x, filter_detections results = inl x) ↔
  ∃ r x, r ∈ results ∧ py_int (class_id r) = inl x.
Proof.
  induction results as [|r rest IH].
  - split.
    + intros [x Hx]. discriminate Hx.
    + intros (r & x & Hr & _). by apply elem_of_nil in Hr.
  - cbn [filter_detections]. unfold mbind, exn_bind, mret, exn_ret.
    destruct (py_int (class_id r)) as [x|c] eqn:Hc.
    + split; [|by eauto]. intros _. exists r, x. split; [left|done].
    + destruct (filter_detections rest) as [x|ds].
      * split; [|by eauto]. intros _.
        destruct (proj1 IH) as (r' & x' & Hr' & Hx'); [by eauto|].
        exists r', x'. split; [by right|done].
      * split.
        -- intros [x Hx]. discriminate Hx.
        -- intros (r' & x' & Hr' & Hx').
           apply elem_of_cons in Hr' as [->|Hr']; [congruence|].
           destruct (proj2 IH) as [x Hx]; [by eauto|]. discriminate Hx.
Qed.

(** The forwarded detections are the detections of a sub-list of the rows,
    in the order of the rows: the filter drops rows, it neither reorders nor
    duplicates them. *)
Theorem filter_keeps_order results : ∀ detections,
  filter_detections results = inr detections →
  ∃ kept, sublist kept results ∧
          Forall2 (λ d r, ∃ c, py_int (class_id r) = inr c ∧
                               d = to_detection c r) detections kept.
Proof.
  induction results as [|r rest IH]; intros detections Hf.
  - injection Hf as <-. exists []. split; constructor.
  - apply filter_detections_cons in Hf as (c & ds & Hc & Hrest & ->).
    destruct (IH ds Hrest) as (kept & Hsub & Hall).
    destruct (is_vehicle c r).
    + exists (r :: kept). split; [by constructor|].
      constructor; [by eauto|done].
    + exists kept. split; [by constructor|done].
Qed.

Lemma filter_keeps_order_witness :
  filter_detections [row_at_threshold; row_above_threshold]
    = inr [to_detection 7 row_above_threshold] ∧
  ∃ kept, sublist kept [row_at_threshold; row_above_threshold] ∧
          Forall2 (λ d r, ∃ c, py_int (class_id r) = inr c ∧
                               d = to_detection c r)
            [to_detection 7 row_above_threshold] kept.
Proof.
  assert (H : filter_detections [row_at_threshold; row_above_threshold]
              = inr [to_detection 7 row_above_threshold])
    by (vm_compute; reflexivity).
  split; [exact H|].
  exact (filter_keeps_order _ _ H).
Defined.

(** ** The output path of [setup_video_writer] *)

Lemma before_last_dot_dotless s :
  dotless s = true → before_last_dot s = None.
Proof.
  induction s as [|c rest IH]; [done|]. cbn [dotless before_last_dot].
  intros [Hc Hrest]%andb_true_iff. rewrite (IH Hrest).
  apply negb_true_iff in Hc. by rewrite Hc.
Qed.

Lemma before_last_dot_app stem ext :
  dotless ext = true →
  before_last_dot (stem +:+ "." +:+ ext) = Some stem.
Proof.
  intros Hext. induction stem as [|c stem IH].
  - change ("" +:+ "." +:+ ext) with (String "."%char ext).
    cbn [before_last_dot]. by rewrite (before_last_dot_dotless ext Hext).
  - change (String c stem +:+ "." +:+ ext)
      with (String c (stem +:+ "." +:+ ext)).
    cbn [before_last_dot]. by rewrite IH.
Qed.

Lemma before_last_dot_Some s : ∀ stem,
  before_last_dot s = Some stem →
  ∃ ext, s = stem +:+ "." +:+ ext ∧ dotless ext = true.
Proof.
  induction s as [|c rest IH]; intros stem; [done|].
  cbn [before_last_dot]. destruct (before_last_dot rest) as [p|] eqn:Hrest.
  - intros [= <-]. destruct (IH p eq_refl) as (ext & -> & Hext).
    exists ext. done.
  - destruct (Ascii.eqb c ".") eqn:Hc; [|done]. intros [= <-].
    apply Ascii.eqb_eq in Hc as ->. exists rest. split; [done|].
    clear IH. induction rest as [|d rest IH]; [done|].
    cbn [before_last_dot] in Hrest. cbn [dotless].
    destruct (before_last_dot rest); [done|].
    destruct (Ascii.eqb d "."); [done|]. by rewrite IH.
Qed.

Lemma append_inv_head (a b c : string) : a +:+ b = a +:+ c → b = c.
Proof.
  induction a as [|x a IH]; [done|]. cbn [String.append].
  intros [= H]. by apply IH.
Qed.

Lemma append_length (a b : string) :
  String.length (a +:+ b) = (String.length a + String.length b)%nat.
Proof.
  induction a as [|x a IH]; [done|].
  change (S (String.length (a +:+ b))
          = S (String.length a + String.length b)%nat).
  by rewrite IH.
Qed.

Lemma processed_path_differs p : rsplit_dot p +:+ "_processed.mp4" ≠ p.
Proof.
  unfold rsplit_dot. destruct (before_last_dot p) as [stem|] eqn:Hp; cbn.
  - apply before_last_dot_Some in Hp as (ext & -> & _).
    intros Heq%append_inv_head. discriminate Heq.
  - intros Heq. apply (f_equal String.length) in Heq.
    rewrite append_length in Heq. cbn in Heq. lia.
Qed.

Section WriterPath.
Context {K : Type} {K_eq : EqDecision K} {K_countable : Countable K}.

Lemma setup_video_writer_returns (w : world K) p e e' out :
  setup_video_writer w p e = (e', inr out) →
  out = rsplit_dot p +:+ "_processed.mp4" ∧ e' = log (OpenWriter out) e.
Proof.
  unfold setup_video_writer, mbind, M_bind, lift, call, mret, M_ret.
  destruct (py_int (CAP_PROP_FRAME_WIDTH w)); [done|].
  destruct (py_int (CAP_PROP_FRAME_HEIGHT w)); [done|].
  destruct (py_int (CAP_PROP_FPS w)); [done|].
  destruct (VideoWriter w); [done|]. intros [= <- <-]. done.
Qed.

(** [setup_video_writer]: the output path is the video path with its last
    dot and what follows replaced by [_processed.mp4] (what follows may
    contain a directory separator when the file name has no extension); a
    path without a dot gets the suffix appended; and the output path is
    never the video path itself, so the writer does not overwrite the
    input. *)
Theorem output_path_of_writer (w : world K) p e e' out :
  setup_video_writer w p e = (e', inr out) →
  out ≠ p ∧
  (∀ stem ext, p = stem +:+ "." +:+ ext → dotless ext = true →
               out = stem +:+ "_processed.mp4") ∧
  (dotless p = true → out = p +:+ "_processed.mp4") ∧
  trace e' = trace e ++ [OpenWriter out].
Proof.
  intros [-> ->]%setup_video_writer_returns. repeat split.
  - apply processed_path_differs.
  - intros stem ext -> Hext. unfold rsplit_dot.
    by rewrite before_last_dot_app.
  - intros Hp. unfold rsplit_dot. by rewrite before_last_dot_dotless.
Qed.

End WriterPath.

Lemma output_path_of_writer_witness :
  setup_video_writer (world_of "clips.v2/traffic.mp4" true [])
    "clips.v2/traffic.mp4" start
  = (log (OpenWriter "clips.v2/traffic_processed.mp4") start,
     inr "clips.v2/traffic_processed.mp4"%string) ∧
  "clips.v2/traffic_processed.mp4"%string ≠ "clips.v2/traffic.mp4"%string.
Proof.
  assert (H : setup_video_writer (world_of "clips.v2/traffic.mp4" true [])
                "clips.v2/traffic.mp4" start
              = (log (OpenWriter "clips.v2/traffic_processed.mp4") start,
                 inr "clips.v2/traffic_processed.mp4"%string))
    by (vm_compute; reflexivity).
  split; [exact H|].
  exact (proj1 (output_path_of_writer _ _ _ _ _ H)).
Defined.

(** ** What the frame loop does to the trace *)





Lemma processing_not_releases ev : processing ev = true → releases ev = false.
Proof. by destruct ev. Qed.

Lemma fold_processing evs : ∀ r,
  forallb processing evs = true →
  cap_open (fold_left step evs r) = cap_open r ∧
  out_open (fold_left step evs r) = out_open r.
Proof.
  induction evs as [|ev evs IH]; intros r; [done|].
  cbn [forallb fold_left]. intros [Hev Hevs]%andb_true_iff.
  destruct (IH (step r ev) Hevs) as [-> ->]. by destruct ev.
Qed.

Section LoopTrace.
Context {K : Type} {K_eq : EqDecision K} {K_countable : Countable K}.
Implicit Types (w : world K) (f : frame_io K) (c : counter K).






End LoopTrace.

(** ** The exits of the notebook's [process_video] *)

Section NotebookRun.
Context {K : Type} {K_eq : EqDecision K} {K_countable : Countable K}.
Implicit Types (w : world K) (f : frame_io K) (c : counter K).


End NotebookRun.


(** ** The loops as sequences of observations *)

Section LoopObservations.
Context {K : Type} {K_eq : EqDecision K} {K_countable : Countable K}.
Implicit Types (w : world K) (f : frame_io K) (c : counter K).
Implicit Types (t : track K) (tracks : list (track K)).

Lemma track_loop_spec L tracks : ∀ c e e' c',
  track_loop L c tracks e = (e', inr c') →
  e' = e ∧
  ∃ calls,
    Forall2 observed_as (filter (λ t, is_confirmed t = true) tracks) calls ∧
    c' = (observe_seq L c calls).2.
Proof.
  induction tracks as [|t rest IH]; intros c e e' c'; cbn [track_loop].
  - intros [= <- <-]. split; [done|]. exists []. split; [constructor|done].
  - destruct (is_confirmed t) eqn:Hconf; cbn [negb].
    + rewrite filter_cons_True by done.
      unfold draw_tracking_info, mbind, M_bind, lift, mret, M_ret.
      destruct (to_ltrb t) as [[[l u] r] b] eqn:Hbox.
      destruct (py_int l) as [?|x1] eqn:Hl; [done|].
      destruct (py_int u) as [?|y1] eqn:Hu; [done|].
      destruct (py_int r) as [?|x2] eqn:Hr; [done|].
      destruct (py_int b) as [?|y2] eqn:Hb; [done|].
      destruct (centroid_y y1 y2) as [?|cy] eqn:Hcy; [done|].
      intros Hrest. apply IH in Hrest as (-> & calls & Hcalls & ->).
      split; [done|]. exists ((track_id t, cy) :: calls). split.
      * constructor; [|done]. split; [done|].
        exists l, u, r, b, x1, y1, x2, y2. done.
      * by rewrite observe_seq_cons.
    + rewrite filter_cons_False by (rewrite Hconf; done). apply IH.
Qed.

Lemma process_frame_spec L c f e e' r :
  process_frame L c f e = (e', inr r) →
  r.2 = (Z.land (waitKey f) 255 =? 113) ∧
  ∃ tracks calls,
    update_tracks f = inr tracks ∧
    Forall2 observed_as (filter (λ t, is_confirmed t = true) tracks) calls ∧
    r.1 = (observe_seq L c calls).2.
Proof.
  unfold process_frame, mbind, M_bind, emit.
  unfold call at 1. destruct (model f) as [?|results]; [done|].
  unfold lift at 1. destruct (filter_detections results) as [?|ds]; [done|].
  unfold call at 1. destruct (update_tracks f) as [?|tracks]; [done|].
  destruct (track_loop L c tracks _) as [e1 [?|c1]] eqn:Htl; [done|].
  apply track_loop_spec in Htl as (-> & calls & Hcalls & ->).
  unfold call at 1. destruct (imshow f) as [?|[]]; [done|].
  unfold call at 1. destruct (write f) as [?|[]]; [done|].
  cbn [call mret M_ret]. intros [= <- <-]. split; [done|]. eauto.
Qed.

Lemma observed_as_reported fs f tracks calls i cy :
  f ∈ fs → update_tracks f = inr tracks →
  Forall2 observed_as (filter (λ t, is_confirmed t = true) tracks) calls →
  (i, cy) ∈ calls → reported fs i.
Proof.
  intros Hf Hts Hcalls Hin.
  apply list_elem_of_lookup in Hin as [n Hn].
  destruct (Forall2_lookup_r _ _ _ _ _ Hcalls Hn) as (t & Ht & Hobs & _).
  apply list_elem_of_lookup_2 in Ht.
  apply list_elem_of_filter in Ht as [Hconf Ht].
  exists f, tracks, t. repeat split; done.
Qed.

Lemma frame_loop_spec L fs : ∀ c e e' c',
  frame_loop L c fs e = (e', inr c') →
  ∃ calls, c' = (observe_seq L c calls).2 ∧
           ∀ i cy, (i, cy) ∈ calls → reported fs i.
Proof.
  induction fs as [|f rest IH]; intros c e e' c'; cbn [frame_loop].
  - unfold mbind, M_bind, emit, call, mret, M_ret. intros [= <- <-].
    exists []. split; [done|]. intros i cy Hin. by apply elem_of_nil in Hin.
  - unfold mbind at 1, M_bind at 1, emit, call.
    unfold mbind, M_bind.
    destruct (process_frame L c f _) as [e1 [?|r]] eqn:Hpf; [done|].
    apply process_frame_spec in Hpf
      as (Hq & tracks & calls & Hts & Hcalls & Hr).
    destruct (r.2 : bool).
    + cbn [mret M_ret]. intros [= <- <-]. exists calls. split; [done|].
      intros i cy Hin.
      apply (observed_as_reported (f :: rest) f tracks calls i cy);
        [left|done..].
    + intros Hrest. apply IH in Hrest as (calls' & -> & Hrep).
      exists (calls ++ calls'). split.
      * rewrite observe_seq_app_state. cbn [snd]. by rewrite Hr.
      * intros i cy [Hin|Hin]%elem_of_app.
        -- apply (observed_as_reported (f :: rest) f tracks calls i cy);
             [left|done..].
        -- destruct (Hrep i cy Hin) as (f' & ts & t & Hf' & Hrest).
           exists f', ts, t. split; [by right|done].
Qed.

(** A frame whose key poll has low byte 113 (the letter q) ends the loop:
    no later frame is read, whatever the stream still holds; any other key,
    or none, lets the loop go on with the next frame. *)
Theorem quit_key_ends_loop L c f rest e e1 r :
  process_frame L c f (log (ReadFrame true) e) = (e1, inr r) →
  frame_loop L c (f :: rest) e =
    if decide (waitKey f `mod` 256 = 113) then (e1, inr r.1)
    else frame_loop L r.1 rest e1.
Proof.
  intros Hpf. cbn [frame_loop].
  unfold mbind at 1, M_bind at 1, emit, call. unfold mbind, M_bind.
  rewrite Hpf. apply process_frame_spec in Hpf as [-> _].
  change 255 with (Z.ones 8). rewrite Z.land_ones by lia.
  change (2 ^ 8) with 256.
  destruct (decide (waitKey f `mod` 256 = 113)) as [->|Hne]; [done|].
  by rewrite (proj2 (Z.eqb_neq _ _) Hne).
Qed.

End LoopObservations.

Lemma quit_key_ends_loop_witness :
  frame_loop (script_line 480) new_counter
    [frame_quit; frame_detector_raises] start =
  ((process_frame (script_line 480) new_counter frame_quit
      (log (ReadFrame true) start)).1,
   inr (observe_seq (script_line 480) new_counter
          [("1"%string, 240); ("2"%string, 242)]).2).
Proof.
  assert (H : process_frame (script_line 480) new_counter frame_quit
                (log (ReadFrame true) start) =
              ((process_frame (script_line 480) new_counter frame_quit
                  (log (ReadFrame true) start)).1,
               inr ((observe_seq (script_line 480) new_counter
                       [("1"%string, 240); ("2"%string, 242)]).2, true)))
    by (vm_compute; reflexivity).
  exact (quit_key_ends_loop (script_line 480) new_counter frame_quit
           [frame_detector_raises] start _ _ H).
Defined.

(** ** A run of the script that returns *)

Section ScriptReturns.
Context {K : Type} {K_eq : EqDecision K} {K_countable : Countable K}.
Implicit Types (w : world K) (f : frame_io K) (c : counter K).

Lemma process_video_returns w e n out :
  process_video w start = (e, inr (n, out)) →
  ∃ p fh e0 e1 c,
    askopenfilename w = inr p ∧ p ≠ ""%string ∧
    YOLO w = inr () ∧ DeepSort w = inr () ∧
    VideoCapture w = inr true ∧ VideoWriter w = inr () ∧
    py_int (CAP_PROP_FRAME_HEIGHT w) = inr fh ∧
    out = rsplit_dot p +:+ "_processed.mp4" ∧
    frame_loop (script_line fh) new_counter (frames w) e0 = (e1, inr c) ∧
    n = total_count c ∧
    trace e = ((trace e1 ++ [ReleaseCapture]) ++ [ReleaseWriter])
              ++ [DestroyAllWindows].
Proof.
  unfold process_video, try_except.
  destruct (process_video_try w start) as [e' [x|[n' out']]] eqn:Htry.
  { intros Hex. pose proof (process_video_except_raises x e') as Hr.
    rewrite Hex in Hr. discriminate Hr. }
  intros [= -> -> ->]. revert Htry.
  unfold process_video_try, select_video, open_capture, setup_video_writer,
    while_opened.
  unfold mbind, M_bind.
  unfold call at 1. destruct (askopenfilename w) as [x|p]; [done|].
  destruct (String.eqb p "") eqn:Hp; [done|]. cbn [mret M_ret].
  unfold call at 1. destruct (YOLO w) as [x|[]]; [done|].
  unfold call at 1. destruct (DeepSort w) as [x|[]]; [done|].
  unfold lift at 1. destruct (VideoCapture w) as [x|[|]]; [done| |done].
  cbn [emit call assign_cap negb log trace cap_bound out_bound start].
  unfold lift at 1.
  destruct (py_int (CAP_PROP_FRAME_WIDTH w)) as [x|fw]; [done|].
  unfold lift at 1.
  destruct (py_int (CAP_PROP_FRAME_HEIGHT w)) as [x|fh]; [done|].
  unfold lift at 1.
  destruct (py_int (CAP_PROP_FPS w)) as [x|fps]; [done|].
  unfold call at 1. destruct (VideoWriter w) as [x|[]]; [done|].
  cbn [assign_out log trace cap_bound out_bound lift mret M_ret].
  cbn [negb]. cbv beta. cbn [trace cap_bound out_bound].
  match goal with
  | |- context [frame_loop ?L ?c ?fs ?e0] =>
      destruct (frame_loop L c fs e0) as [e1 [x|c1]] eqn:Hloop
  end; [done|].
  cbn. intros [= <- <- <-].
  eexists p, fh, _, e1, c1. repeat split; try done.
  by apply String.eqb_neq.
Qed.

(** When [process_video] of the script returns, a non-empty path was
    selected and the capture was opened; the returned path is the selected
    one with its extension replaced by [_processed.mp4], never the selected
    path itself; the returned total is the number of distinct identities
    counted, each the identity of a confirmed track reported on some frame
    (a track that is never confirmed is never counted); and the trace ends
    with the three releases. *)
Theorem process_video_result w e n out :
  process_video w start = (e, inr (n, out)) →
  (∃ p, askopenfilename w = inr p ∧ p ≠ ""%string ∧
        out = rsplit_dot p +:+ "_processed.mp4" ∧ out ≠ p) ∧
  VideoCapture w = inr true ∧
  (∃ ids : gset K,
     n = Z.of_nat (size ids) ∧ ∀ i, i ∈ ids → reported (frames w) i) ∧
  ∃ tr, trace e = tr ++ [ReleaseCapture; ReleaseWriter; DestroyAllWindows].
Proof.
  intros Hrun. apply process_video_returns in Hrun
    as (p & fh & e0 & e1 & c & Hsel & Hp & _ & _ & Hcap & _ & _ & -> & Hloop
        & -> & Htr).
  split; [|split; [done|split]].
  - exists p. repeat split; try done. apply processed_path_differs.
  - apply frame_loop_spec in Hloop as (calls & -> & Hrep).
    exists (banded (script_line fh) calls). split.
    + rewrite (in_sync_observe_seq _ calls new_counter in_sync_new).
      rewrite observe_seq_counted. cbn [new_counter counted_ids].
      by rewrite (left_id_L ∅ (∪)).
    + intros i (cy & Hin & _)%elem_of_banded. by eapply Hrep.
  - exists (trace e1). rewrite Htr, <- !app_assoc. done.
Qed.

End ScriptReturns.

Lemma process_video_result_witness :
  process_video (world_of "traffic.mp4" true [frame_two_tracks; frame_quit])
    start =
    ((process_video
        (world_of "traffic.mp4" true [frame_two_tracks; frame_quit])
        start).1,
     inr (2, "traffic_processed.mp4"%string)) ∧
  VideoCapture (world_of "traffic.mp4" true [frame_two_tracks; frame_quit])
    = inr true.
Proof.
  assert (H : process_video
                (world_of "traffic.mp4" true [frame_two_tracks; frame_quit])
                start =
              ((process_video
                  (world_of "traffic.mp4" true
                     [frame_two_tracks; frame_quit]) start).1,
               inr (2, "traffic_processed.mp4"%string)))
    by (vm_compute; reflexivity).
  split; [exact H|].
  exact (proj1 (proj2 (process_video_result _ _ _ _ H))).
Defined.

(** ** The centroid row *)

Lemma digits2_pos_size m : digits2_pos m = Pos.size m.
Proof. induction m as [m IH|m IH|]; cbn; by rewrite ?IH. Qed.

Lemma digits2_pos_bound m :
  Z.pos m < 2 ^ 53 → Z.pos (digits2_pos m) ≤ 53.
Proof.
  intros Hm. rewrite digits2_pos_size.
  pose proof (Pos.size_le m) as Hle.
  apply Pos2Z.pos_le_pos in Hle. rewrite Pos2Z.inj_pow in Hle.
  change (Z.pos m~0) with (2 * Z.pos m) in Hle.
  destruct (Z.le_gt_cases (Z.pos (Pos.size m)) 53) as [|Hgt]; [done|].
  assert (2 ^ 54 ≤ 2 ^ Z.pos (Pos.size m))
    by (apply Z.pow_le_mono_r; lia).
  change (2 ^ 54) with (2 * 2 ^ 53) in *. lia.
Qed.

Lemma digits2_pos_iter_xO m k :
  digits2_pos (Pos.iter xO m k) = (digits2_pos m + k)%positive.
Proof.
  induction k as [|k IH] using Pos.peano_ind.
  - cbn. lia.
  - rewrite Pos.iter_succ. cbn [digits2_pos]. rewrite IH. lia.
Qed.

Lemma Zpos_iter_xO m k :
  Z.pos (Pos.iter xO m k) = Z.pos m * 2 ^ Z.pos k.
Proof.
  induction k as [|k IH] using Pos.peano_ind.
  - cbn. lia.
  - rewrite Pos.iter_succ, Pos2Z.inj_succ, Z.pow_succ_r by lia.
    change (Z.pos (Pos.iter xO m k)~0) with (2 * Z.pos (Pos.iter xO m k)).
    rewrite IH. lia.
Qed.

Lemma shr_fexp_full mz ez l :
  Z.pos (digits2_pos mz) = 53 → -1074 ≤ ez →
  shr_fexp prec emax (Z.pos mz) ez l = (shr_record_of_loc (Z.pos mz) l, ez).
Proof.
  intros Hd He. unfold shr_fexp, Zdigits2.
  replace (fexp prec emax (Z.pos (digits2_pos mz) + ez) - ez) with 0;
    [done|].
  unfold fexp, emin, prec, emax. rewrite Hd. lia.
Qed.

Lemma binary_round_aux_full s mz ez :
  Z.pos (digits2_pos mz) = 53 → -1074 ≤ ez ≤ 971 →
  binary_round_aux prec emax s (Z.pos mz) ez loc_Exact = S754_finite s mz ez.
Proof.
  intros Hd He. unfold binary_round_aux.
  rewrite shr_fexp_full by lia.
  cbn [shr_record_of_loc shr_m loc_of_shr_record round_nearest_even].
  rewrite shr_fexp_full by lia. cbn [shr_record_of_loc shr_m].
  replace (ez <=? emax - prec) with true; [done|].
  symmetry. apply Z.leb_le. unfold emax, prec. lia.
Qed.

(** Halving an integer below 2^53 in binary64 loses nothing but the odd
    bit. *)
Lemma binary_round_half s m :
  Z.pos m < 2 ^ 53 →
  ∃ mz ez, binary_round prec emax s m (-1) = S754_finite s mz ez ∧
           Z.shiftl (Z.pos mz) ez = Z.pos m / 2.
Proof.
  intros Hm. pose proof (digits2_pos_bound m Hm) as Hd.
  unfold binary_round.
  assert (fexp prec emax (Z.pos (digits2_pos m) + -1)
          = Z.pos (digits2_pos m) - 54) as ->
    by (unfold fexp, emin, prec, emax; lia).
  unfold shl_align.
  destruct (Z.pos (digits2_pos m) - 54 - -1) as [|k|k] eqn:Hk; [|lia|].
  - exists m, (-1). split.
    + apply binary_round_aux_full; lia.
    + rewrite Z.shiftl_div_pow2 by lia. done.
  - exists (Pos.iter xO m k), (Z.pos (digits2_pos m) - 54). split.
    + apply binary_round_aux_full; [|lia].
      rewrite digits2_pos_iter_xO. lia.
    + rewrite Z.shiftl_div_pow2 by lia. rewrite Zpos_iter_xO.
      replace (- (Z.pos (digits2_pos m) - 54)) with (Z.pos k + 1) by lia.
      rewrite Z.pow_add_r by lia. change (2 ^ 1) with 2.
      assert (0 < 2 ^ Z.pos k) by (apply Z.pow_pos_nonneg; lia).
      rewrite (Z.mul_comm (Z.pos m)), Z.div_mul_cancel_l by lia. done.
Qed.

(** [int((y1 + y2) / 2)] for integer rows whose sum is below 2^53 in
    magnitude (every pixel row is): the float division is exact up to the
    half and the conversion truncates toward zero, so the centroid row is
    the quotient of the sum by 2 rounded toward zero (not floored: -3 gives
    -1), and no exception is raised. *)
Theorem centroid_y_exact y1 y2 :
  - 2 ^ 53 < y1 + y2 < 2 ^ 53 →
  centroid_y y1 y2 = inr ((y1 + y2) ÷ 2).
Proof.
  intros Hn. unfold centroid_y, half, binary_normalize.
  destruct (y1 + y2) as [|m|m].
  - done.
  - destruct (binary_round_half false m) as (mz & ez & -> & Hsh); [lia|].
    cbn. rewrite Hsh. f_equal. rewrite Z.quot_div_nonneg by lia. done.
  - destruct (binary_round_half true m) as (mz & ez & -> & Hsh); [lia|].
    cbn. rewrite Hsh. f_equal.
    change (Z.neg m) with (- Z.pos m). rewrite Z.quot_opp_l by lia.
    rewrite Z.quot_div_nonneg by lia. done.
Qed.

Lemma centroid_y_exact_witness :
  - 2 ^ 53 < 230 + 251 < 2 ^ 53 ∧ centroid_y 230 251 = inr 240.
Proof.
  assert (H : - 2 ^ 53 < 230 + 251 < 2 ^ 53) by lia.
  split; [exact H|]. exact (centroid_y_exact 230 251 H).
Defined.

(** ** The exits of a run, in full detail *)

Module FullFacts.
Import Full.

Lemma full_extend_nil e : extend e [] = e.
Proof. destruct e. unfold extend. cbn. by rewrite app_nil_r. Qed.

Lemma full_extend_extend e evs1 evs2 :
  extend (extend e evs1) evs2 = extend e (evs1 ++ evs2).
Proof. unfold extend. cbn. by rewrite app_assoc. Qed.

Lemma full_emits_ask P {A} (r : failure + A) : emits_only P (ask r).
Proof. intros e. exists []. by rewrite full_extend_nil. Qed.

Lemma full_emits_ret P {A} (a : A) : emits_only P (mret a).
Proof. intros e. exists []. by rewrite full_extend_nil. Qed.

Lemma full_emits_lift P {A} (r : exn + A) : emits_only P (lift r).
Proof. apply full_emits_ask. Qed.

Lemma full_emits_call (P : event → bool) {A} ev (r : failure + A) :
  P ev = true → emits_only P (call ev r).
Proof.
  intros Hev e. unfold call. destruct r as [x|a].
  - exists []. by rewrite full_extend_nil.
  - exists [ev]. split; [done|]. cbn. by rewrite Hev.
Qed.

Lemma full_emits_bind P {A B} (m : N A) (k : A → N B) :
  emits_only P m → (∀ a, emits_only P (k a)) → emits_only P (m ≫= k).
Proof.
  intros Hm Hk e. unfold mbind, N_bind.
  destruct (Hm e) as (evs1 & He1 & H1).
  destruct (m e) as [e1 [x|a]]; cbn [fst] in He1; subst e1.
  - exists evs1. done.
  - destruct (Hk a (extend e evs1)) as (evs2 & He2 & H2).
    exists (evs1 ++ evs2). rewrite He2, full_extend_extend.
    split; [done|]. rewrite forallb_app, H1, H2. done.
Qed.

Lemma full_fold_in_frame evs : ∀ r,
  forallb in_frame evs = true →
  cap_open (fold_left step evs r) = cap_open r ∧
  out_open (fold_left step evs r) = out_open r.
Proof.
  induction evs as [|ev evs IH]; intros r; [done|].
  cbn [forallb fold_left]. intros [Hev Hevs]%andb_true_iff.
  destruct (IH (step r ev) Hevs) as [-> ->]. by destruct ev.
Qed.

Lemma full_left_open_cleanup tr :
  left_open (((tr ++ [ReleaseCapture]) ++ [ReleaseWriter])
             ++ [DestroyAllWindows]) = nothing_open.
Proof. unfold left_open. rewrite !fold_left_app. reflexivity. Qed.

Section Loops.
Context {K : Type} {K_eq : EqDecision K} {K_countable : Countable K}.
Implicit Types (w : world K) (f : frame_io K) (c : counter K).
Implicit Types (t : track K) (tracks : list (track K)).

Lemma full_emits_draw (P : event → bool) above t :
  (∀ ev, draws_track ev = true → P ev = true) →
  emits_only P (draw_tracking_info above t).
Proof.
  intros HP. unfold draw_tracking_info.
  destruct (to_ltrb t) as [[[l u] r] b].
  repeat (apply full_emits_bind; [apply full_emits_lift|intros ?]).
  apply full_emits_bind; [by apply full_emits_call, HP|intros ?].
  apply full_emits_bind; [by apply full_emits_call, HP|intros ?].
  apply full_emits_ret.
Qed.

Lemma full_emits_track_loop (P : event → bool) above L tracks :
  (∀ ev, draws_track ev = true → P ev = true) →
  ∀ c, emits_only P (track_loop above L c tracks).
Proof.
  intros HP. induction tracks as [|t rest IH]; intros c; cbn [track_loop].
  - apply full_emits_ret.
  - destruct (negb (is_confirmed t)); [apply IH|].
    apply full_emits_bind; [by apply full_emits_draw|intros ?].
    apply full_emits_bind; [apply full_emits_lift|intros ?]. apply IH.
Qed.

Lemma draws_track_in_frame ev : draws_track ev = true → in_frame ev = true.
Proof. by destruct ev. Qed.

Lemma full_emits_process_frame above L c f :
  emits_only in_frame (process_frame above L c f).
Proof.
  unfold process_frame, emit.
  apply full_emits_bind; [by apply full_emits_call|intros ?].
  apply full_emits_bind; [apply full_emits_lift|intros ?].
  apply full_emits_bind; [by apply full_emits_call|intros ?].
  apply full_emits_bind;
    [apply full_emits_track_loop, draws_track_in_frame|intros ?].
  repeat (apply full_emits_bind; [by apply full_emits_call|intros ?]).
  apply full_emits_bind; [apply full_emits_ask|intros ?].
  apply full_emits_bind; [by apply full_emits_call|intros ?].
  apply full_emits_ret.
Qed.

Lemma full_emits_frame_loop above L fs : ∀ c,
  emits_only in_frame (frame_loop above L c fs).
Proof.
  induction fs as [|f rest IH]; intros c; cbn [frame_loop]; unfold emit.
  - apply full_emits_bind; [by apply full_emits_call|intros ?].
    apply full_emits_ret.
  - apply full_emits_bind; [by apply full_emits_call|intros ?].
    apply full_emits_bind; [apply full_emits_process_frame|intros r].
    destruct (r.2 : bool); [apply full_emits_ret|apply IH].
Qed.

End Loops.

Section Exits.
Context {K : Type} {K_eq : EqDecision K} {K_countable : Countable K}.
Implicit Types (w : world K) (f : frame_io K) (c : counter K).

(** Where the [try] block ends: what is open is bound, and after a return
    nothing is open. *)
Lemma full_try_exit w :
  open_is_bound (process_video_try w start).1 ∧
  ∀ v, (process_video_try w start).2 = inr v →
       left_open (trace (process_video_try w start).1) = nothing_open.
Proof.
  destruct (process_video_try w start) as [e1 r1] eqn:Htry.
  cbn [fst snd]. revert Htry.
  unfold process_video_try, select_video, open_capture, setup_video_writer,
    while_opened, cleanup.
  unfold mbind, N_bind.
  unfold call at 1.
  destruct (askopenfilename w) as [x|p]; [by intros [= <- <-]|].
  destruct (String.eqb p ""); [by intros [= <- <-]|]. cbn [mret N_ret].
  unfold call at 1. destruct (YOLO w) as [x|[]]; [by intros [= <- <-]|].
  unfold call at 1. destruct (DeepSort w) as [x|[]]; [by intros [= <- <-]|].
  unfold ask at 1.
  destruct (VideoCapture w) as [x|[|]];
    [by intros [= <- <-]| |by intros [= <- <-]].
  cbn [emit call assign_cap negb extend trace cap_bound out_bound start].
  unfold lift at 1, ask at 1.
  destruct (py_int (CAP_PROP_FRAME_WIDTH w)) as [x|fw];
    [by intros [= <- <-]|].
  unfold lift at 1, ask at 1.
  destruct (py_int (CAP_PROP_FRAME_HEIGHT w)) as [x|fh];
    [by intros [= <- <-]|].
  unfold lift at 1, ask at 1.
  destruct (py_int (CAP_PROP_FPS w)) as [x|fps]; [by intros [= <- <-]|].
  unfold call at 1.
  destruct (VideoWriter w) as [x|[]]; [by intros [= <- <-]|].
  cbn [assign_out extend trace cap_bound out_bound lift ask mret N_ret].
  cbn [negb]. cbv beta. cbn [trace cap_bound out_bound].
  match goal with
  | |- context [frame_loop ?a ?L ?c ?fs ?e0] =>
      destruct (full_emits_frame_loop a L fs c e0) as (evs & He & Hevs);
      destruct (frame_loop a L c fs e0) as [e2 [x|c1]]
  end; cbn [fst] in He; subst e2.
  { intros [= <- <-]. split; [by split|done]. }
  unfold call.
  destruct (cap_release w) as [x|[]], (out_release w) as [y|[]],
    (destroyAllWindows w) as [z|[]];
    cbv beta iota; cbn [mret N_ret]; intros [= <- <-];
    (split; [by split|]); try done.
  intros v _. cbn [extend trace]. apply full_left_open_cleanup.
Qed.

(** The [except] block, entered where what is open is bound, with release
    calls that return. *)
Lemma full_except_closes w x e :
  open_is_bound e →
  cap_release_except w = inr () → out_release_except w = inr () →
  let r := process_video_except w x e in
  cap_open (left_open (trace r.1)) = false ∧
  out_open (left_open (trace r.1)) = false ∧
  match destroyAllWindows_except w with
  | inr _ => r.2 = inl (Exception x) ∧
             window_open (left_open (trace r.1)) = false
  | inl y => r.2 = inl y
  end.
Proof.
  intros [Hcap Hout] Hrc Hro r. subst r.
  unfold process_video_except, locals_has_cap, locals_has_out, when, call,
    raise, ask, mbind, N_bind, mret, N_ret.
  rewrite Hrc, Hro. destruct e as [tr cb ob].
  cbn [trace cap_bound out_bound] in Hcap, Hout.
  assert (cb = false → cap_open (left_open tr) = false) as Hc
    by (destruct (cap_open (left_open tr)); [|done]; rewrite Hcap; done).
  assert (ob = false → out_open (left_open tr) = false) as Ho
    by (destruct (out_open (left_open tr)); [|done]; rewrite Hout; done).
  unfold left_open in *.
  destruct cb, ob, (destroyAllWindows_except w) as [y|[]];
    cbn [extend trace cap_bound out_bound fst snd];
    rewrite ?fold_left_app; cbn [fold_left step cap_open out_open window_open];
    rewrite ?Hc, ?Ho by done; done.
Qed.

Lemma full_except_never_returns w x e v :
  (process_video_except w x e).2 ≠ inr v.
Proof.
  unfold process_video_except, locals_has_cap, locals_has_out, when, call,
    raise, ask, mbind, N_bind, mret, N_ret.
  destruct e as [tr [|] [|]], (cap_release_except w) as [?|[]],
    (out_release_except w) as [?|[]],
    (destroyAllWindows_except w) as [?|[]]; done.
Qed.

(** [process_video] of [car_detection.py], every exit.  When it returns,
    the capture, the writer and the windows are released.  An interrupt
    raised in the [try] block passes the [except Exception] block, which does
    nothing then.  When the [try] block raises an [Exception] and the two
    [release()] calls of the handler return, the capture and the writer are
    released; the caller then gets that exception, with the windows
    destroyed, if [destroyAllWindows()] returns, and gets the exception of
    [destroyAllWindows()] in its place if that call raises. *)
Theorem script_exits w :
  let run := process_video w start in
  let tried := process_video_try w start in
  (∀ v, run.2 = inr v → left_open (trace run.1) = nothing_open) ∧
  (∀ n, tried.2 = inl (Interrupt n) → run = tried) ∧
  (∀ x, tried.2 = inl (Exception x) →
        cap_release_except w = inr () → out_release_except w = inr () →
        cap_open (left_open (trace run.1)) = false ∧
        out_open (left_open (trace run.1)) = false ∧
        match destroyAllWindows_except w with
        | inr _ => run.2 = inl (Exception x) ∧
                   window_open (left_open (trace run.1)) = false
        | inl y => run.2 = inl y
        end).
Proof.
  intros run tried. subst run tried.
  pose proof (full_try_exit w) as [Hbound Hret].
  unfold process_video, try_except.
  destruct (process_video_try w start) as [e1 [[x|n]|v]];
    cbn [fst snd] in *.
  - split; [|split].
    + intros v Hv. by apply full_except_never_returns in Hv.
    + intros n Hn. discriminate Hn.
    + intros x' [= <-] Hrc Hro. by apply full_except_closes.
  - split; [|split]; [done|done|]. intros x Hx. discriminate Hx.
  - split; [|split]; [by eauto|done|]. intros x Hx. discriminate Hx.
Qed.

End Exits.

Section NotebookAndFrames.
Context {K : Type} {K_eq : EqDecision K} {K_countable : Countable K}.
Implicit Types (w : world K) (f : frame_io K) (c : counter K).
Implicit Types (t : track K) (tracks : list (track K)).

(** [process_video] of the notebook, every exit.  When it returns, the
    capture, the writer and the windows are released.  When it raises or is
    interrupted, either no release call has returned, so that the capture
    and the writer are open if they were bound, or the failure is that of
    one of its own three cleanup calls. *)
Theorem notebook_exits_in_full w :
  let run := notebook_process_video w start in
  (∀ v, run.2 = inr v → left_open (trace run.1) = nothing_open) ∧
  (∀ y, run.2 = inl y →
        (forallb (λ ev, negb (releases ev)) (trace run.1) = true ∧
         cap_open (left_open (trace run.1)) = cap_bound run.1 ∧
         out_open (left_open (trace run.1)) = out_bound run.1) ∨
        cap_release w = inl y ∨ out_release w = inl y ∨
        destroyAllWindows w = inl y).
Proof.
  intros run. subst run.
  destruct (notebook_process_video w start) as [e1 r1] eqn:Hrun.
  cbn [fst snd]. revert Hrun.
  unfold notebook_process_video, select_video, open_capture,
    setup_video_writer, while_opened, cleanup.
  unfold mbind, N_bind.
  unfold call at 1.
  destruct (askopenfilename w) as [x|p];
    [intros [= <- <-]; split; [done|]; intros y _; by left|].
  destruct (String.eqb p "");
    [intros [= <- <-]; split; [done|]; intros y _; by left|].
  cbn [mret N_ret].
  unfold call at 1.
  destruct (YOLO w) as [x|[]];
    [intros [= <- <-]; split; [done|]; intros y _; by left|].
  unfold call at 1.
  destruct (DeepSort w) as [x|[]];
    [intros [= <- <-]; split; [done|]; intros y _; by left|].
  unfold ask at 1.
  destruct (VideoCapture w) as [x|opened];
    [intros [= <- <-]; split; [done|]; intros y _; by left|].
  cbn [emit call assign_cap extend trace cap_bound out_bound start].
  unfold lift at 1, ask at 1.
  destruct (py_int (CAP_PROP_FRAME_WIDTH w)) as [x|fw];
    [intros [= <- <-]; split; [done|]; intros y _; by left|].
  unfold lift at 1, ask at 1.
  destruct (py_int (CAP_PROP_FRAME_HEIGHT w)) as [x|fh];
    [intros [= <- <-]; split; [done|]; intros y _; by left|].
  unfold lift at 1, ask at 1.
  destruct (py_int (CAP_PROP_FPS w)) as [x|fps];
    [intros [= <- <-]; split; [done|]; intros y _; by left|].
  unfold call at 1.
  destruct (VideoWriter w) as [x|[]];
    [intros [= <- <-]; split; [done|]; intros y _; by left|].
  cbn [assign_out extend trace cap_bound out_bound lift ask mret N_ret].
  assert (∃ evs e2 (r2 : failure + counter K),
            (if opened
             then frame_loop 5 notebook_line new_counter (frames w)
             else mret new_counter)
              {| trace := (((([] ++ [AskOpenFilename]) ++ [LoadModel])
                            ++ [InitTracker]) ++ [OpenCapture p opened])
                          ++ [OpenWriter (rsplit_dot p +:+ "_processed.mp4")];
                 cap_bound := true; out_bound := true |} = (e2, r2) ∧
            e2 = {| trace := ((((([] ++ [AskOpenFilename]) ++ [LoadModel])
                               ++ [InitTracker]) ++ [OpenCapture p opened])
                             ++ [OpenWriter
                                   (rsplit_dot p +:+ "_processed.mp4")])
                            ++ evs;
                    cap_bound := true; out_bound := true |} ∧
            forallb in_frame evs = true) as (evs & e2 & r2 & -> & -> & Hevs).
  { destruct opened.
    - match goal with
      | |- context [frame_loop ?a ?L ?c ?fs ?e0] =>
          destruct (full_emits_frame_loop a L fs c e0) as (evs & He & Hevs);
          destruct (frame_loop a L c fs e0) as [e2 r2]
      end.
      cbn [fst] in He. subst e2. exists evs. eauto.
    - exists []. eexists _, _. split; [done|]. by rewrite app_nil_r. }
  assert (Hnone : forallb (λ ev, negb (releases ev)) evs = true).
  { apply forallb_forall. intros ev Hin.
    pose proof (proj1 (forallb_forall _ _) Hevs ev Hin). by destruct ev. }
  destruct r2 as [x|c1].
  { intros [= <- <-]. split; [done|]. intros y _. left.
    cbn [trace cap_bound out_bound]. unfold left_open.
    cbn [forallb releases negb andb fold_left].
    split; [done|].
    match goal with
    | |- context [fold_left step evs ?r0] =>
        destruct (full_fold_in_frame evs r0 Hevs) as [-> ->]
    end.
    done. }
  unfold call.
  destruct (cap_release w) as [x|[]], (out_release w) as [y|[]],
    (destroyAllWindows w) as [z|[]];
    cbv beta iota; cbn [mret N_ret]; intros [= <- <-];
    (split; [|by intros ? [= <-]; eauto]); try done.
  intros v _. cbn [extend trace]. apply full_left_open_cleanup.
Qed.

Lemma full_track_loop_spec above L tracks : ∀ c e e' c',
  track_loop above L c tracks e = (e', inr c') →
  ∃ calls evs,
    Forall2 observed_as (filter (λ t, is_confirmed t = true) tracks) calls ∧
    c' = (observe_seq L c calls).2 ∧
    e' = extend e evs ∧
    forallb draws_track evs = true ∧
    length evs =
      (2 * length (filter (λ t, is_confirmed t = true) tracks))%nat.
Proof.
  induction tracks as [|t rest IH]; intros c e e' c'; cbn [track_loop].
  - intros [= <- <-]. exists [], []. rewrite full_extend_nil.
    repeat split; constructor.
  - destruct (is_confirmed t) eqn:Hconf; cbn [negb].
    + rewrite filter_cons_True by done.
      unfold draw_tracking_info, mbind, N_bind, lift, ask, mret, N_ret.
      destruct (to_ltrb t) as [[[l u] r] b] eqn:Hbox.
      destruct (py_int l) as [?|x1] eqn:Hl; [done|].
      destruct (py_int u) as [?|y1] eqn:Hu; [done|].
      destruct (py_int r) as [?|x2] eqn:Hr; [done|].
      destruct (py_int b) as [?|y2] eqn:Hb; [done|].
      unfold call at 1. destruct (rectangle t) as [?|[]]; [done|].
      unfold call at 1. destruct (putText t) as [?|[]]; [done|].
      cbn [fst snd].
      destruct (centroid_y y1 y2) as [?|cy] eqn:Hcy; [done|].
      intros Hrest.
      apply IH in Hrest as (calls & evs & Hcalls & -> & -> & Hevs & Hlen).
      exists ((track_id t, cy) :: calls),
        ([Rectangle (x1, y1) (x2, y2); PutText (x1, y1 - above)] ++ evs).
      split; [|split; [|split; [|split]]].
      * constructor; [|done]. split; [done|].
        exists l, u, r, b, x1, y1, x2, y2. done.
      * by rewrite observe_seq_cons.
      * by rewrite !full_extend_extend.
      * done.
      * cbn [app length]. rewrite Hlen. lia.
    + rewrite filter_cons_False by (rewrite Hconf; done). apply IH.
Qed.

(** The track loop of a frame, when it ends without failure, has drawn and
    observed exactly the confirmed tracks: its external calls are the two
    drawing calls of each confirmed track and nothing else, and the counter
    it leaves is the one obtained by observing the confirmed tracks in
    order, each with its identity and the centroid row of its converted
    box; a track that is not confirmed is neither drawn nor observed. *)
Theorem track_loop_draws_and_observes above L tracks c e e' c' :
  track_loop above L c tracks e = (e', inr c') →
  ∃ calls evs,
    Forall2 observed_as (filter (λ t, is_confirmed t = true) tracks) calls ∧
    c' = (observe_seq L c calls).2 ∧
    e' = extend e evs ∧
    forallb draws_track evs = true ∧
    length evs =
      (2 * length (filter (λ t, is_confirmed t = true) tracks))%nat.
Proof. apply full_track_loop_spec. Qed.

(** A frame that is processed without failure makes these calls, in this
    order: the detector; the tracker update, on exactly the detections the
    filter kept from the results of this frame; the rectangle and the label
    of each confirmed track; the counting line; the label of the total; the
    display; the write to the output; the key poll.  The loop stops after
    the frame exactly when the key has low byte 113. *)
Theorem process_frame_calls above L c f e e' r :
  process_frame above L c f e = (e', inr r) →
  ∃ results detections tracks drawn key,
    model f = inr results ∧
    filter_detections results = inr detections ∧
    update_tracks f = inr tracks ∧
    waitKey f = inr key ∧
    e' = extend e ([Detect; UpdateTracks detections] ++ drawn ++
                   [Line (line_position L); PutText (20, 50); ImShow;
                    WriteFrame; WaitKey key]) ∧
    forallb draws_track drawn = true ∧
    length drawn =
      (2 * length (filter (λ t, is_confirmed t = true) tracks))%nat ∧
    r.2 = (Z.land key 255 =? 113).
Proof.
  unfold process_frame, mbind, N_bind, emit.
  unfold call at 1. destruct (model f) as [?|results]; [done|].
  unfold lift at 1, ask at 1.
  destruct (filter_detections results) as [?|ds] eqn:Hds; [done|].
  unfold call at 1. destruct (update_tracks f) as [?|tracks]; [done|].
  destruct (track_loop above L c tracks _) as [e1 [?|c1]] eqn:Htl; [done|].
  apply full_track_loop_spec in Htl
    as (calls & drawn & _ & _ & -> & Hdrawn & Hlen).
  unfold call at 1. destruct (line f) as [?|[]]; [done|].
  unfold call at 1. destruct (putText_total f) as [?|[]]; [done|].
  unfold call at 1. destruct (imshow f) as [?|[]]; [done|].
  unfold call at 1. destruct (write f) as [?|[]]; [done|].
  unfold ask at 1. destruct (waitKey f) as [?|key]; [done|].
  cbn [call mret N_ret]. intros [= <- <-].
  exists results, ds, tracks, drawn, key. repeat split; try done.
  rewrite !full_extend_extend. f_equal.
Qed.

End NotebookAndFrames.

Lemma track_loop_draws_and_observes_witness :
  track_loop 10 (script_line 480) new_counter tracks_of_frame start =
    (extend start [Rectangle (10, 230) (50, 250); PutText (10, 220)],
     inr (observe_seq (script_line 480) new_counter
            [("1"%string, 240)]).2) ∧
  ∃ calls evs,
    Forall2 observed_as
      (filter (λ t, is_confirmed t = true) tracks_of_frame) calls ∧
    (observe_seq (script_line 480) new_counter [("1"%string, 240)]).2 =
      (observe_seq (script_line 480) new_counter calls).2 ∧
    extend start [Rectangle (10, 230) (50, 250); PutText (10, 220)] =
      extend start evs ∧
    forallb draws_track evs = true ∧
    length evs =
      (2 * length (filter (λ t, is_confirmed t = true) tracks_of_frame))%nat.
Proof.
  assert (H : track_loop 10 (script_line 480) new_counter tracks_of_frame
                start =
              (extend start [Rectangle (10, 230) (50, 250);
                             PutText (10, 220)],
               inr (observe_seq (script_line 480) new_counter
                      [("1"%string, 240)]).2))
    by (vm_compute; reflexivity).
  split; [exact H|].
  exact (track_loop_draws_and_observes _ _ _ _ _ _ _ H).
Defined.

Lemma process_frame_calls_witness :
  process_frame 10 (script_line 480) new_counter frame_one_track start =
    (extend start
       [Detect; UpdateTracks [to_detection 7 row_above_threshold];
        Rectangle (10, 230) (50, 250); PutText (10, 220);
        Line 240; PutText (20, 50); ImShow; WriteFrame; WaitKey (-1)],
     inr ((observe_seq (script_line 480) new_counter
             [("1"%string, 240)]).2, false)) ∧
  ∃ results detections,
    model frame_one_track = inr results ∧
    filter_detections results = inr detections.
Proof.
  assert (H : process_frame 10 (script_line 480) new_counter frame_one_track
                start =
              (extend start
                 [Detect; UpdateTracks [to_detection 7 row_above_threshold];
                  Rectangle (10, 230) (50, 250); PutText (10, 220);
                  Line 240; PutText (20, 50); ImShow; WriteFrame;
                  WaitKey (-1)],
               inr ((observe_seq (script_line 480) new_counter
                       [("1"%string, 240)]).2, false)))
    by (vm_compute; reflexivity).
  split; [exact H|].
  destruct (process_frame_calls _ _ _ _ _ _ _ H)
    as (results & ds & _ & _ & _ & Hm & Hds & _).
  exists results, ds. split; [exact Hm|exact Hds].
Defined.

Lemma script_exits_witness :
  (process_video
     (run_over [frame_one_track; frame_failing not_implemented] (inr ()))
     start).2 = inl not_implemented ∧
  left_open
    (trace (process_video
              (run_over [frame_one_track; frame_failing not_implemented]
                 (inr ())) start).1) = nothing_open ∧
  (process_video
     (run_over [frame_one_track]
        (inl (Exception (ExternalError "no window support")))) start).2 =
    inl (Exception (ExternalError "no window support")) ∧
  process_video
    (run_over [frame_one_track;
               frame_failing (Interrupt "KeyboardInterrupt")] (inr ()))
    start =
  process_video_try
    (run_over [frame_one_track;
               frame_failing (Interrupt "KeyboardInterrupt")] (inr ()))
    start ∧
  left_open
    (trace (process_video
              (run_over [frame_one_track;
                         frame_failing (Interrupt "KeyboardInterrupt")]
                 (inr ())) start).1) =
    {| cap_open := true; out_open := true; window_open := true |}.
Proof.
  pose proof (script_exits
                (run_over [frame_one_track; frame_failing not_implemented]
                   (inr ()))) as (_ & _ & H1).
  specialize (H1 (ExternalError "The function is not implemented")
                ltac:(vm_compute; reflexivity) eq_refl eq_refl).
  cbn [run_over destroyAllWindows_except] in H1.
  destruct H1 as (Hc & Ho & Hr & Hw).
  pose proof (script_exits
                (run_over [frame_one_track;
                           frame_failing (Interrupt "KeyboardInterrupt")]
                   (inr ()))) as (_ & H2 & _).
  specialize (H2 "KeyboardInterrupt"%string ltac:(vm_compute; reflexivity)).
  split; [exact Hr|]. split; [|split; [|split; [exact H2|]]].
  - revert Hc Ho Hw.
    destruct (left_open _) as [a b c]. cbn. by intros -> -> ->.
  - vm_compute. reflexivity.
  - vm_compute. reflexivity.
Defined.

End FullFacts.
